(** * FireCastX front-end: the [App] component and its variants

    A shallow embedding of the React components of this repository:

    - [Imperative]   : src/my-app/src/App.jsx (globe built against a DOM node),
    - [Declarative]  : src/unnamed/part_005   (globe through the wrapper component),
    - [Prototype]    : src/unnamed/part_004   (first imperative version, no timeline),
    - [InlineStyled] : src/unnamed/part_000   (inline styles, timeline, no base switch).

    Hooks become fields of a state record, event handlers become functions
    on it, and the objects of the globe library (layers, camera) live in an
    explicit store so that the aliasing between refs and the globe's layer
    array is kept. *)

From Stdlib Require Import ZArith QArith Lia List.
From stdpp Require Import base strings list gmap.
Import ListNotations.

Local Open Scope Z_scope.

(** ** The JavaScript values the components compute with *)

Module JS.

(** A JavaScript number, as far as the timeline uses it: an integer (every
    value below stays under 2^53, where the arithmetic of doubles is exact)
    or NaN. *)
Inductive number : Type :=
| Int (z : Z)
| NaN.

Definition add (a b : number) : number :=
  match a, b with
  | Int x, Int y => Int (x + y)
  | _, _ => NaN
  end.

Definition mul (a b : number) : number :=
  match a, b with
  | Int x, Int y => Int (x * y)
  | _, _ => NaN
  end.

(** A [Date] object holds a time value: milliseconds since the epoch, or
    NaN for an invalid date. *)
Inductive Date : Type :=
| ValidDate (t : Z)
| InvalidDate.

Definition msPerSecond : Z := 1000.
Definition msPerMinute : Z := 60000.
Definition msPerHour : Z := 3600000.
Definition msPerDay : Z := 86400000.

(** The largest time value of ECMAScript: 8.64e15 ms. *)
Definition MAX_TIME : Z := 8640000000000000.

Definition TimeClip (n : number) : Date :=
  match n with
  | Int z => if Z.abs z <=? MAX_TIME then ValidDate z else InvalidDate
  | NaN => InvalidDate
  end.

(** [new Date(value)]. *)
Definition new_Date (value : number) : Date := TimeClip value.

(** [new Date()]: the reading [clock] of the system clock. *)
Definition Date_now (clock : Z) : Date := TimeClip (Int clock).

(** [d.getTime()]. *)
Definition getTime (d : Date) : number :=
  match d with
  | ValidDate t => Int t
  | InvalidDate => NaN
  end.

(** The abstract operations of ECMAScript's Date chapter, first for a
    browser whose local time zone keeps one offset [tza] from UTC, in
    milliseconds; zones that change their offset follow below. *)
Definition LocalTime (tza t : Z) : Z := t + tza.
Definition UTC (tza t : Z) : Z := t - tza.
Definition Day (t : Z) : Z := t / msPerDay.
Definition HourFromTime (t : Z) : Z := (t / msPerHour) mod 24.
Definition MinFromTime (t : Z) : Z := (t / msPerMinute) mod 60.
Definition SecFromTime (t : Z) : Z := (t / msPerSecond) mod 60.
Definition msFromTime (t : Z) : Z := t mod msPerSecond.

Definition MakeTime (hour min sec ms : Z) : Z :=
  hour * msPerHour + min * msPerMinute + sec * msPerSecond + ms.
Definition MakeDate (day time : Z) : Z := day * msPerDay + time.

(** [d.setMinutes(min, sec, ms)]: the hour of the local time is kept, the
    three smaller fields are replaced, and the result is converted back. *)
Definition setMinutes (tza : Z) (d : Date) (min sec ms : Z) : Date :=
  match d with
  | InvalidDate => InvalidDate
  | ValidDate t0 =>
      let t := LocalTime tza t0 in
      let date := MakeDate (Day t) (MakeTime (HourFromTime t) min sec ms) in
      TimeClip (Int (UTC tza date))
  end.

(** [d.getMinutes()], [d.getSeconds()], [d.getMilliseconds()]. *)
Definition getMinutes (tza : Z) (d : Date) : number :=
  match d with
  | ValidDate t => Int (MinFromTime (LocalTime tza t))
  | InvalidDate => NaN
  end.

Definition getSeconds (tza : Z) (d : Date) : number :=
  match d with
  | ValidDate t => Int (SecFromTime (LocalTime tza t))
  | InvalidDate => NaN
  end.

Definition getMilliseconds (tza : Z) (d : Date) : number :=
  match d with
  | ValidDate t => Int (msFromTime (LocalTime tza t))
  | InvalidDate => NaN
  end.

(** The same operations for a zone whose offset changes.  A zone gives the
    offset in force at an instant (LocalTZA(t, true)) and the offset by
    which it reads a local time (LocalTZA(t, false)): for a local time that
    comes twice, at the end of daylight time, this is the offset of the
    first of the two instants. *)
Record Zone : Type := { offsetAt : Z -> Z; offsetOfLocal : Z -> Z }.

(** A zone that never changes its offset. *)
Definition fixedZone (tza : Z) : Zone :=
  {| offsetAt := fun _ => tza; offsetOfLocal := fun _ => tza |}.

Definition LocalTimeIn (z : Zone) (t : Z) : Z := t + offsetAt z t.
Definition UTCIn (z : Zone) (t : Z) : Z := t - offsetOfLocal z t.

(** [d.setMinutes(min, sec, ms)] in the zone [z]. *)
Definition setMinutesIn (z : Zone) (d : Date) (min sec ms : Z) : Date :=
  match d with
  | InvalidDate => InvalidDate
  | ValidDate t0 =>
      let t := LocalTimeIn z t0 in
      let date := MakeDate (Day t) (MakeTime (HourFromTime t) min sec ms) in
      TimeClip (Int (UTCIn z date))
  end.

(** [d.getMinutes()], [d.getSeconds()], [d.getMilliseconds()] in [z]. *)
Definition getMinutesIn (z : Zone) (d : Date) : number :=
  match d with
  | ValidDate t => Int (MinFromTime (LocalTimeIn z t))
  | InvalidDate => NaN
  end.

Definition getSecondsIn (z : Zone) (d : Date) : number :=
  match d with
  | ValidDate t => Int (SecFromTime (LocalTimeIn z t))
  | InvalidDate => NaN
  end.

Definition getMillisecondsIn (z : Zone) (d : Date) : number :=
  match d with
  | ValidDate t => Int (msFromTime (LocalTimeIn z t))
  | InvalidDate => NaN
  end.

(** The outcome of a call that may throw. *)
Inductive Error : Type :=
| RangeError
| TypeError.

Inductive Completion (A : Type) : Type :=
| Return (a : A)
| Throw (e : Error).

Arguments Return {A} a.
Arguments Throw {A} e.

End JS.

(** ** The timeline (App.jsx 11-41, part_000 9-49, part_005 11-41)

    The three files that have a timeline spell it the same way, so it is
    embedded once. *)

Module Timeline.
Import JS.

Definition TZ : string := "America/Chicago".
Definition HOUR_MS : Z := 3600000.

(** [useMemo(() => { const d = new Date(); d.setMinutes(0, 0, 0); return d; }, [])] *)
Definition now (tza clock : Z) : Date :=
  let d := Date_now clock in
  setMinutes tza d 0 0 0.

(** The same memo in a zone whose offset changes. *)
Definition nowIn (z : Zone) (clock : Z) : Date :=
  let d := Date_now clock in
  setMinutesIn z d 0 0 0.

(** [new Date(now.getTime() + 24 * HOUR_MS)] *)
Definition end_ (now : Date) : Date :=
  new_Date (add (getTime now) (mul (Int 24) (Int HOUR_MS))).

(** [maxIdx] of part_000; App.jsx and part_005 write the literal. *)
Definition maxIdx : Z := 24.

(** [new Date(now.getTime() + sliderIdx * HOUR_MS)] *)
Definition selectedDate (now : Date) (sliderIdx : Z) : Date :=
  new_Date (add (getTime now) (mul (Int sliderIdx) (Int HOUR_MS))).

(** The positions of [<input type="range" min max step>]: the values
    [min + k * step] that do not exceed [max]. *)
Definition rangePositions (min max step : Z) : list Z :=
  if (0 <? step) && (min <=? max)
  then map (fun k => min + Z.of_nat k * step) (seq 0 (S (Z.to_nat ((max - min) / step))))
  else [min].

(** The slider of the timeline: [min={0} max={24} step={1}]. *)
Definition sliderPositions : list Z := rangePositions 0 maxIdx 1.

(** One part of [Intl.DateTimeFormat.prototype.formatToParts]. *)
Record Part : Type := { type : string; value : string }.

(** [formatToParts(d)]: a RangeError for an invalid date (ECMA-402,
    PartitionDateTimePattern), otherwise the parts [engine] makes of the
    time value for the formatter's options. *)
Definition formatToParts (engine : Z -> list Part) (d : Date) : Completion (list Part) :=
  match d with
  | InvalidDate => Throw RangeError
  | ValidDate t => Return (engine t)
  end.

(** [x || "CT"] on a string or undefined. *)
Definition orCT (x : option string) : string :=
  match x with
  | Some (String c s) => String c s
  | Some EmptyString => "CT"
  | None => "CT"
  end.

(** [formatToParts(d).find((p) => p.type === "timeZoneName")?.value || "CT"] *)
Definition fmtTZShort (engine : Z -> list Part) (d : Date) : Completion string :=
  match formatToParts engine d with
  | Throw e => Throw e
  | Return parts =>
      Return (orCT (value <$> List.find (fun p => String.eqb (type p) "timeZoneName") parts))
  end.

(** The minute field of [fmtDateTime(d)]: the label is formatted in the zone
    [TZ], whose offset from UTC at the instant [t] is [zone t]; like
    [formatToParts], [format] throws on an invalid date. *)
Definition fmtDateTime_minute (zone : Z -> Z) (d : Date) : Completion Z :=
  match d with
  | InvalidDate => Throw RangeError
  | ValidDate t => Return (MinFromTime (t + zone t))
  end.

End Timeline.

(** ** The globe library, as far as the components drive it

    Layers are objects of the library: they live in a store and are reached
    through locations, so a ref and the globe's layer array can name the
    same layer.  The camera is the library's own; a globe records the
    calls its camera has carried out, oldest first. *)

Module OG.
Import JS.

Inductive Provider : Type :=
| OpenStreetMap
| Bing
| XYZ (name : string).

Record Layer : Type := { provider : Provider; visibility : bool }.

(** [new OpenStreetMap()], [new Bing()], [new XYZ(name, ...)]: a layer is
    visible when it is made. *)
Definition new_Layer (p : Provider) : Layer :=
  {| provider := p; visibility := true |}.

(** [layer.setVisibility(v)] *)
Definition setVisibility (v : bool) (l : Layer) : Layer :=
  {| provider := provider l; visibility := v |}.

Definition loc : Type := nat.

(** [new C()] as a statement: the object gets a location not in use. *)
Definition alloc (h : gmap loc Layer) (l : Layer) : loc * gmap loc Layer :=
  let i := fresh (dom h) in (i, <[i := l]> h).

(** The argument of [flyLonLat] and of the wrapper's [cameraView]. *)
Record View : Type := { lon : Q; lat : Q; height : Q }.

(** A call the camera has carried out. *)
Inductive CameraCall : Type :=
| flyLonLat (v : View).

(** A [Globe] instance: the layers of its planet, which the constructor
    takes from its [layers] option, and the calls its [planet.camera] has
    carried out. *)
Record Globe : Type := { layers : list loc; cameraCalls : list CameraCall }.

Definition callCamera (c : CameraCall) (g : Globe) : Globe :=
  {| layers := layers g; cameraCalls := cameraCalls g ++ [c] |}.

(** What a handler asks of [planet.camera]: a member, by its name, called
    with its argument. *)
Inductive Request : Type :=
| ask_flyLonLat (v : View)
| ask_zoomIn
| ask_zoomOut.

(** The camera has [flyLonLat].  It has no member [zoomIn] and no member
    [zoomOut]: asking for one of them is calling [undefined], which throws
    a TypeError, and the camera carries nothing out. *)
Definition answer (r : Request) (g : Globe) : Completion Globe :=
  match r with
  | ask_flyLonLat v => Return (callCamera (flyLonLat v) g)
  | ask_zoomIn => Throw TypeError
  | ask_zoomOut => Throw TypeError
  end.

(** [globe.layers.clear()]: a globe has no member [layers] (the layers
    belong to its planet), so the call reads [clear] off [undefined] and
    throws a TypeError. *)
Definition globe_layers_clear (g : Globe) : Completion Globe := Throw TypeError.

(** The view the camera was last sent to. *)
Definition lastView (calls : list CameraCall) : option View :=
  head (omap (fun c => match c with flyLonLat v => Some v end) (rev calls)).

(** The providers of the layers of [ls] that are visible in [h]. *)
Definition visibleProviders (h : gmap loc Layer) (ls : list loc) : list Provider :=
  omap (fun l => match h !! l with
                 | Some ly => if visibility ly then Some (provider ly) else None
                 | None => None
                 end) ls.

End OG.

(** ** src/my-app/src/App.jsx: the globe built against a DOM node *)

Module Imperative.
Import JS Timeline OG.

Record State : Type := {
  showIntro : bool;                 (* useState(true) *)
  sliderIdx : Z;                    (* useState(0) *)
  globeRef : bool;                  (* globeRef.current is the mounted <div> *)
  globus : option Globe;            (* useState(null) *)
  base : string;                    (* useState("OSM") *)
  osmRef : option loc;              (* useRef(null) *)
  satRef : option loc;              (* useRef(null) *)
  store : gmap loc Layer            (* the layer objects *)
}.

Definition US_VIEW : View :=
  {| lon := -98583 # 1000; lat := 39833 # 1000; height := 4500000 # 1 |}.

Definition initial : State :=
  {| showIntro := true; sliderIdx := 0; globeRef := false; globus := None;
     base := "OSM"; osmRef := None; satRef := None; store := ∅ |}.

Definition setShowIntro (b : bool) (s : State) : State :=
  {| showIntro := b; sliderIdx := sliderIdx s; globeRef := globeRef s;
     globus := globus s; base := base s; osmRef := osmRef s;
     satRef := satRef s; store := store s |}.

Definition setSliderIdx (v : Z) (s : State) : State :=
  {| showIntro := showIntro s; sliderIdx := v; globeRef := globeRef s;
     globus := globus s; base := base s; osmRef := osmRef s;
     satRef := satRef s; store := store s |}.

Definition setBase (name : string) (s : State) : State :=
  {| showIntro := showIntro s; sliderIdx := sliderIdx s; globeRef := globeRef s;
     globus := globus s; base := name; osmRef := osmRef s;
     satRef := satRef s; store := store s |}.

Definition setGlobus (g : option Globe) (s : State) : State :=
  {| showIntro := showIntro s; sliderIdx := sliderIdx s; globeRef := globeRef s;
     globus := g; base := base s; osmRef := osmRef s;
     satRef := satRef s; store := store s |}.

Definition setStore (h : gmap loc Layer) (s : State) : State :=
  {| showIntro := showIntro s; sliderIdx := sliderIdx s; globeRef := globeRef s;
     globus := globus s; base := base s; osmRef := osmRef s;
     satRef := satRef s; store := h |}.

(** The commit of the first render attaches [<div ref={globeRef}>]. *)
Definition attach (s : State) : State :=
  {| showIntro := showIntro s; sliderIdx := sliderIdx s; globeRef := true;
     globus := globus s; base := base s; osmRef := osmRef s;
     satRef := satRef s; store := store s |}.

(** The body of [useEffect(() => { ... }, [])] (lines 51-92).  The resize
    listeners it installs touch the renderer and a CSS variable only, and
    the cleanup it returns runs when the component goes away. *)
Definition effect (s : State) : State :=
  if negb (globeRef s) then s
  else
    let '(osm, h1) := alloc (store s) (new_Layer OpenStreetMap) in
    let '(sat, h2) := alloc h1 (new_Layer Bing) in
    let globeInstance := {| layers := [osm; sat]; cameraCalls := [] |} in
    let h3 := alter (setVisibility false) sat h2 in
    {| showIntro := showIntro s; sliderIdx := sliderIdx s; globeRef := globeRef s;
       globus := Some (callCamera (flyLonLat US_VIEW) globeInstance);
       base := base s; osmRef := Some osm; satRef := Some sat; store := h3 |}.

(** [switchLayer] (lines 95-106). *)
Definition switchLayer (layerName : string) (s : State) : State :=
  match globus s, osmRef s, satRef s with
  | Some _, Some osm, Some sat =>
      let h :=
        if String.eqb layerName "OSM" then
          alter (setVisibility false) sat (alter (setVisibility true) osm (store s))
        else if String.eqb layerName "SAT" then
          alter (setVisibility true) sat (alter (setVisibility false) osm (store s))
        else store s in
      setBase layerName (setStore h s)
  | _, _, _ => s
  end.

(** [globus?.planet?.camera?.m(...)]: nothing happens on [null]; on a globe
    the camera is asked for [m].  The result is the state the call leaves
    and the way it ends. *)
Definition cameraCall (r : Request) (s : State) : State * Completion unit :=
  match globus s with
  | None => (s, Return tt)
  | Some g =>
      match answer r g with
      | Return g' => (setGlobus (Some g') s, Return tt)
      | Throw e => (s, Throw e)
      end
  end.

Definition camera (r : Request) (s : State) : State := fst (cameraCall r s).

(** The three handlers, as the state they leave ... *)
Definition zoomIn (s : State) : State := camera ask_zoomIn s.
Definition zoomOut (s : State) : State := camera ask_zoomOut s.
Definition resetCompass (s : State) : State := camera (ask_flyLonLat US_VIEW) s.

(** ... and as the way the call ends. *)
Definition zoomIn_ends (s : State) : Completion unit := snd (cameraCall ask_zoomIn s).
Definition zoomOut_ends (s : State) : Completion unit := snd (cameraCall ask_zoomOut s).
Definition resetCompass_ends (s : State) : Completion unit :=
  snd (cameraCall (ask_flyLonLat US_VIEW) s).

(** What can happen to the mounted component.  The three camera handlers
    are defined by the file although no element of its JSX is bound to
    them.  A handler that throws leaves the state as it was when it
    threw. *)
Inductive Event : Type :=
| RunEffect
| ClickIntro                  (* the overlay background *)
| ClickIntroCard              (* the card: e.stopPropagation() *)
| ChangeSlider (v : Z)        (* setSliderIdx(Number(e.target.value)) *)
| ClickBase (name : string)   (* a base button; a disabled one does nothing *)
| CallSwitchLayer (name : string)
| CallZoomIn
| CallZoomOut
| CallResetCompass
| WindowResize.

(** One event.  The overlay is rendered while [showIntro] holds, and the
    base button that names the current [base] is disabled. *)
Definition step (e : Event) (s : State) : State :=
  match e with
  | RunEffect => effect s
  | ClickIntro => if showIntro s then setShowIntro false s else s
  | ClickIntroCard => s
  | ChangeSlider v => setSliderIdx v s
  | ClickBase name => if String.eqb (base s) name then s else switchLayer name s
  | CallSwitchLayer name => switchLayer name s
  | CallZoomIn => zoomIn s
  | CallZoomOut => zoomOut s
  | CallResetCompass => resetCompass s
  | WindowResize => s
  end.

Definition run (es : list Event) (s : State) : State :=
  fold_left (fun s e => step e s) es s.

(** The component once mounted: first commit, then the effect. *)
Definition mounted : State := effect (attach initial).

(** The globe and both layers exist, and the two refs name distinct
    layers. *)
Definition initialized (s : State) : Prop :=
  match globus s, osmRef s, satRef s with
  | Some _, Some osm, Some sat =>
      osm ≠ sat ∧ is_Some (store s !! osm) ∧ is_Some (store s !! sat)
  | _, _, _ => False
  end.

(** The visibility of the layer a ref names. *)
Definition visibleAt (r : option loc) (s : State) : option bool :=
  match r with
  | Some l => visibility <$> store s !! l
  | None => None
  end.

Definition osmVisible (s : State) : option bool := visibleAt (osmRef s) s.
Definition satVisible (s : State) : option bool := visibleAt (satRef s) s.

(** What the globe shows, and where its camera was last sent. *)
Definition shown (s : State) : list Provider :=
  match globus s with
  | Some g => visibleProviders (store s) (layers g)
  | None => []
  end.

Definition cameraTarget (s : State) : option View :=
  match globus s with
  | Some g => lastView (cameraCalls g)
  | None => None
  end.

End Imperative.

(** ** src/unnamed/part_005: the globe through the wrapper component *)

Module Declarative.
Import JS Timeline OG.

(** [globeRef] is made by [useRef(null)] and given to the wrapper as
    [ref].  The component itself never writes it, and the wrapper does not
    hand its globe to it: [globeRef.current] stays [null]. *)
Record State : Type := {
  showIntro : bool;             (* useState(true) *)
  sliderIdx : Z;                (* useState(0) *)
  base : string;                (* useState("OSM") *)
  globeRef : option Globe       (* globeRef.current *)
}.

(** The two memoised layers (lines 55-74). *)
Definition osmLayer : Layer := new_Layer OpenStreetMap.
Definition satLayer : Layer := new_Layer (XYZ "ESRI World Imagery").

(** [base === "OSM" ? [osmLayer] : [satLayer]] *)
Definition baseLayers (base : string) : list Layer :=
  if String.eqb base "OSM" then [osmLayer] else [satLayer].

Definition START_VIEW : View :=
  {| lon := -11974978 # 100000; lat := 37082052 # 1000000; height := 2000000 # 1 |}.

Definition initial : State :=
  {| showIntro := true; sliderIdx := 0; base := "OSM"; globeRef := None |}.

Definition setShowIntro (b : bool) (s : State) : State :=
  {| showIntro := b; sliderIdx := sliderIdx s; base := base s; globeRef := globeRef s |}.

Definition setSliderIdx (v : Z) (s : State) : State :=
  {| showIntro := showIntro s; sliderIdx := v; base := base s; globeRef := globeRef s |}.

Definition setBase (name : string) (s : State) : State :=
  {| showIntro := showIntro s; sliderIdx := sliderIdx s; base := name; globeRef := globeRef s |}.

(** [layers={baseLayers}]: the layers the component hands to the wrapper.
    What the wrapper's globe shows of them is the wrapper's business. *)
Definition layersProp (s : State) : list Layer := baseLayers (base s).

(** [getGlobe()?.planet?.camera?.m(...)] *)
Definition cameraCall (r : Request) (s : State) : State * Completion unit :=
  match globeRef s with
  | None => (s, Return tt)
  | Some g =>
      match answer r g with
      | Return g' =>
          ({| showIntro := showIntro s; sliderIdx := sliderIdx s; base := base s;
              globeRef := Some g' |}, Return tt)
      | Throw e => (s, Throw e)
      end
  end.

Definition camera (r : Request) (s : State) : State := fst (cameraCall r s).

Definition zoomIn (s : State) : State := camera ask_zoomIn s.
Definition zoomOut (s : State) : State := camera ask_zoomOut s.
Definition resetCompass (s : State) : State := camera (ask_flyLonLat START_VIEW) s.

Definition zoomIn_ends (s : State) : Completion unit := snd (cameraCall ask_zoomIn s).
Definition zoomOut_ends (s : State) : Completion unit := snd (cameraCall ask_zoomOut s).
Definition resetCompass_ends (s : State) : Completion unit :=
  snd (cameraCall (ask_flyLonLat START_VIEW) s).

Inductive Event : Type :=
| ClickIntro
| ClickIntroCard
| ChangeSlider (v : Z)
| ClickBase (name : string)      (* a base button: () => setBase(name) *)
| ToggleLayerCheckbox (i : nat)  (* onChange with an empty body *)
| ClickZoomIn
| ClickZoomOut
| ClickResetCompass
| WindowResize.

(** One event, with the same overlay and [disabled] buttons as App.jsx. *)
Definition step (e : Event) (s : State) : State :=
  match e with
  | ClickIntro => if showIntro s then setShowIntro false s else s
  | ClickIntroCard => s
  | ChangeSlider v => setSliderIdx v s
  | ClickBase name => if String.eqb (base s) name then s else setBase name s
  | ToggleLayerCheckbox _ => s
  | ClickZoomIn => zoomIn s
  | ClickZoomOut => zoomOut s
  | ClickResetCompass => resetCompass s
  | WindowResize => s
  end.

Definition run (es : list Event) (s : State) : State :=
  fold_left (fun s e => step e s) es s.

End Declarative.

(** ** src/unnamed/part_004: the first imperative version *)

Module Prototype.
Import JS OG.

Record State : Type := {
  globeRef : bool;               (* globeRef.current is the mounted <div> *)
  globus : option Globe;         (* useState(null) *)
  currentLayer : string;         (* useState("OSM") *)
  store : gmap loc Layer
}.

Definition initial : State :=
  {| globeRef := false; globus := None; currentLayer := "OSM"; store := ∅ |}.

Definition attach (s : State) : State :=
  {| globeRef := true; globus := globus s; currentLayer := currentLayer s; store := store s |}.

Definition START : View :=
  {| lon := -98583 # 1000; lat := 39833 # 1000; height := 4500000 # 1 |}.
Definition ORIGIN : View :=
  {| lon := 0; lat := 0; height := 4500000 # 1 |}.

(** The effect (lines 32-63); the terrain object it makes is not used. *)
Definition effect (s : State) : State :=
  if negb (globeRef s) then s
  else
    let '(osm, h1) := alloc (store s) (new_Layer OpenStreetMap) in
    let globeInstance := {| layers := [osm]; cameraCalls := [] |} in
    {| globeRef := globeRef s;
       globus := Some (callCamera (flyLonLat START) globeInstance);
       currentLayer := currentLayer s; store := h1 |}.

(** [switchLayer] (lines 65-72).  After the guard the first statement is
    [globus.layers.clear()], which throws: the lines after it, the new
    layer and [setCurrentLayer] among them, are not reached.  The result
    is the state the call leaves and the way it ends. *)
Definition switchLayerCall (layerName : string) (s : State) : State * Completion unit :=
  match globus s with
  | None => (s, Return tt)
  | Some g =>
      match globe_layers_clear g with
      | Throw e => (s, Throw e)
      | Return g1 =>
          (* the rest of the body, should the call ever return *)
          ({| globeRef := globeRef s; globus := Some g1;
              currentLayer := layerName; store := store s |}, Return tt)
      end
  end.

Definition switchLayer (layerName : string) (s : State) : State :=
  fst (switchLayerCall layerName s).

Definition switchLayer_ends (layerName : string) (s : State) : Completion unit :=
  snd (switchLayerCall layerName s).

(** [if (!globus) return; globus.planet.camera.m(...)] *)
Definition cameraCall (r : Request) (s : State) : State * Completion unit :=
  match globus s with
  | None => (s, Return tt)
  | Some g =>
      match answer r g with
      | Return g' =>
          ({| globeRef := globeRef s; globus := Some g';
              currentLayer := currentLayer s; store := store s |}, Return tt)
      | Throw e => (s, Throw e)
      end
  end.

Definition camera (r : Request) (s : State) : State := fst (cameraCall r s).

Definition zoomIn (s : State) : State := camera ask_zoomIn s.
Definition zoomOut (s : State) : State := camera ask_zoomOut s.
Definition resetCompass (s : State) : State := camera (ask_flyLonLat ORIGIN) s.

Definition zoomIn_ends (s : State) : Completion unit := snd (cameraCall ask_zoomIn s).
Definition zoomOut_ends (s : State) : Completion unit := snd (cameraCall ask_zoomOut s).
Definition resetCompass_ends (s : State) : Completion unit :=
  snd (cameraCall (ask_flyLonLat ORIGIN) s).

Inductive Event : Type :=
| RunEffect
| ClickBase (name : string)   (* a base button: () => switchLayer(name) *)
| ClickZoomIn
| ClickZoomOut
| ClickResetCompass
| WindowResize.

(** One event; the button that names [currentLayer] is disabled, and a
    handler that throws leaves the state as it was when it threw. *)
Definition step (e : Event) (s : State) : State :=
  match e with
  | RunEffect => effect s
  | ClickBase name => if String.eqb (currentLayer s) name then s else switchLayer name s
  | ClickZoomIn => zoomIn s
  | ClickZoomOut => zoomOut s
  | ClickResetCompass => resetCompass s
  | WindowResize => s
  end.

Definition run (es : list Event) (s : State) : State :=
  fold_left (fun s e => step e s) es s.

Definition mounted : State := effect (attach initial).

Definition shown (s : State) : list Provider :=
  match globus s with
  | Some g => visibleProviders (store s) (layers g)
  | None => []
  end.

Definition cameraTarget (s : State) : option View :=
  match globus s with
  | Some g => lastView (cameraCalls g)
  | None => None
  end.

End Prototype.

(** ** src/unnamed/part_000: inline styles, timeline, a single base layer *)

Module InlineStyled.
Import JS Timeline OG.

Record State : Type := {
  showIntro : bool;     (* useState(true) *)
  sliderIdx : Z         (* useState(0) *)
}.

Definition initial : State := {| showIntro := true; sliderIdx := 0 |}.

Definition setShowIntro (b : bool) (s : State) : State :=
  {| showIntro := b; sliderIdx := sliderIdx s |}.

Definition setSliderIdx (v : Z) (s : State) : State :=
  {| showIntro := showIntro s; sliderIdx := v |}.

Inductive Event : Type :=
| ClickIntro
| ClickIntroCard
| ChangeSlider (v : Z)
| ToggleLayerCheckbox (i : nat) (checked : bool)   (* recolours the box *)
| WindowResize.

Definition step (e : Event) (s : State) : State :=
  match e with
  | ClickIntro => if showIntro s then setShowIntro false s else s
  | ClickIntroCard => s
  | ChangeSlider v => setSliderIdx v s
  | ToggleLayerCheckbox _ _ => s
  | WindowResize => s
  end.

Definition run (es : list Event) (s : State) : State :=
  fold_left (fun s e => step e s) es s.

End InlineStyled.

(** ** The window's resize listeners (App.jsx 77-91)

    A listener is a function object: it has a location of its own, so the
    cleanup removes the very functions the effect registered.  The page
    keeps the listeners of "resize" in the order of registration, the
    inner height of the window, the CSS variable [--vh] and a count of the
    calls of [renderer.resize()]. *)

Module Window.

Inductive Kind : Type :=
| HandleResize     (* () => globeInstance.renderer.resize() *)
| OnResizeVH.      (* () => style.setProperty("--vh", `${window.innerHeight}px`) *)

#[global] Instance Kind_eq_dec : EqDecision Kind.
Proof. solve_decision. Defined.

Record Page : Type := {
  listeners : list (nat * Kind);
  innerHeight : Z;
  vh : option Z;             (* the pixels [--vh] holds, once it is set *)
  rendererResizes : nat;
  destroyed : nat            (* calls of [globeInstance.destroy()] *)
}.

Definition withListeners (ls : list (nat * Kind)) (p : Page) : Page :=
  {| listeners := ls; innerHeight := innerHeight p; vh := vh p;
     rendererResizes := rendererResizes p; destroyed := destroyed p |}.

(** A new function object: a location no registered listener has. *)
Definition newFunction (p : Page) : nat := fresh (fst <$> listeners p).

(** [window.addEventListener("resize", f)]: a function that is registered
    already is not registered twice. *)
Definition addEventListener (f : nat) (k : Kind) (p : Page) : Page :=
  if bool_decide (f ∈ (fst <$> listeners p)) then p
  else withListeners (listeners p ++ [(f, k)]) p.

(** [window.removeEventListener("resize", f)] *)
Definition removeEventListener (f : nat) (p : Page) : Page :=
  withListeners (filter (fun l => fst l ≠ f) (listeners p)) p.

(** What a listener does when it is called. *)
Definition call (k : Kind) (p : Page) : Page :=
  match k with
  | HandleResize =>
      {| listeners := listeners p; innerHeight := innerHeight p; vh := vh p;
         rendererResizes := S (rendererResizes p); destroyed := destroyed p |}
  | OnResizeVH =>
      {| listeners := listeners p; innerHeight := innerHeight p;
         vh := Some (innerHeight p);
         rendererResizes := rendererResizes p; destroyed := destroyed p |}
  end.

(** The window is resized to the height [h]: every listener registered at
    that moment is called, in order. *)
Definition resize (h : Z) (p : Page) : Page :=
  let p0 := {| listeners := listeners p; innerHeight := h; vh := vh p;
               rendererResizes := rendererResizes p; destroyed := destroyed p |} in
  fold_left (fun q l => call (snd l) q) (listeners p) p0.

(** What the effect keeps for its cleanup: the two functions. *)
Record Cleanup : Type := { handleResize : nat; onResizeVH : nat }.

(** Lines 77-85 of the effect. *)
Definition effect (p : Page) : Page * Cleanup :=
  let f1 := newFunction p in
  let p1 := addEventListener f1 HandleResize p in
  let f2 := newFunction p1 in
  let p2 := call OnResizeVH p1 in
  let p3 := addEventListener f2 OnResizeVH p2 in
  (p3, {| handleResize := f1; onResizeVH := f2 |}).

(** Lines 87-91: the function the effect returns. *)
Definition cleanup (c : Cleanup) (p : Page) : Page :=
  let p1 := removeEventListener (handleResize c) p in
  let p2 := removeEventListener (onResizeVH c) p1 in
  {| listeners := listeners p2; innerHeight := innerHeight p2; vh := vh p2;
     rendererResizes := rendererResizes p2; destroyed := S (destroyed p2) |}.

End Window.

(** ** The layer check boxes of part_000 (lines 201-236)

    The boxes are uncontrolled: the browser keeps [checked], and the
    [onChange] handler recolours the box it is called on. *)

Module LayerList.

Definition labels : list string :=
  ["Predicted Spread"; "Fire Perimeters"; "MODIS Hotspots"; "Wind Direction"].

Record Box : Type := { label : string; checked : bool; backgroundColor : string }.

(** [i % 2 === 0] *)
Definition even_index (i : nat) : bool := Nat.eqb (i mod 2) 0.

(** [e.target.checked ? "#ff844a" : "transparent"] *)
Definition colourOf (checked : bool) : string :=
  if checked then "#ff844a" else "transparent".

(** The box the first render makes of the label at index [i]. *)
Definition initialBox (i : nat) (l : string) : Box :=
  {| label := l; checked := even_index i;
     backgroundColor := if even_index i then "#ff844a" else "transparent" |}.

Definition initial : list Box := imap initialBox labels.

(** [onChange]: [e.target.style.backgroundColor = ...] *)
Definition onChange (b : Box) : Box :=
  {| label := label b; checked := checked b;
     backgroundColor := colourOf (checked b) |}.

(** A click on the box at index [i]: the browser flips [checked], then
    [onChange] runs.  There is no box past the last index. *)
Definition click (i : nat) (bs : list Box) : list Box :=
  alter (fun b => onChange {| label := label b; checked := negb (checked b);
                             backgroundColor := backgroundColor b |}) i bs.

Definition clicks (idxs : list nat) (bs : list Box) : list Box :=
  fold_left (fun bs i => click i bs) idxs bs.

End LayerList.

(** ** scripts/copy-og-assets.cjs (src/unnamed/part_002)

    The script awaits two calls of the file system inside [try], logs, and
    catches.  A computation takes the trace so far and gives the trace
    with a value or the message of the rejection. *)

Module CopyAssets.

Inductive Outcome : Type :=
| Fulfilled
| Rejected (message : string).

(** What the file system answers. *)
Record FS : Type := {
  mkdir_recursive : string -> Outcome;
  cp_recursive : string -> string -> Outcome
}.

Inductive Action : Type :=
| Mkdir (path : string)
| Cp (src dst : string)
| ConsoleLog (text : string)
| ConsoleError (text message : string).

Definition M (A : Type) : Type := list Action -> list Action * (A + string).

Definition ret {A : Type} (a : A) : M A := fun tr => (tr, inl a).

Definition bind {A B : Type} (m : M A) (k : A -> M B) : M B :=
  fun tr =>
    match m tr with
    | (tr', inl a) => k a tr'
    | (tr', inr msg) => (tr', inr msg)
    end.

Local Notation "m >>> k" := (bind m (fun _ => k)) (at level 62, right associativity).

(** [await] of a promise of the file system: the call is made, and the
    promise is fulfilled or rejects. *)
Definition await (a : Action) (o : Outcome) : M unit :=
  fun tr =>
    match o with
    | Fulfilled => (tr ++ [a], inl tt)
    | Rejected msg => (tr ++ [a], inr msg)
    end.

Definition console (a : Action) : M unit := fun tr => (tr ++ [a], inl tt).

(** [try { body } catch (err) { handler(err.message) }] *)
Definition tryCatch (body : M unit) (handler : string -> M unit) : M unit :=
  fun tr =>
    match body tr with
    | (tr', inl v) => (tr', inl v)
    | (tr', inr msg) => handler msg tr'
    end.

(** The body of the script; [resolve] is [path.resolve] in the directory
    the script is started from. *)
Definition main (resolve : string -> string) (fs : FS) : M unit :=
  let src := resolve "node_modules/@openglobus/og/res" in
  let dst := resolve "public/og-res" in
  tryCatch
    (await (Mkdir dst) (mkdir_recursive fs dst) >>>
     await (Cp src dst) (cp_recursive fs src dst) >>>
     console (ConsoleLog "[openglobus] Copied assets to /public/og-res"))
    (fun message =>
       console (ConsoleError "[openglobus] Failed to copy assets:" message)).

(** The script, started with an empty trace. *)
Definition run (resolve : string -> string) (fs : FS) : list Action * (unit + string) :=
  main resolve fs [].

End CopyAssets.

(** ** The base switch (App.jsx 147-163, part_005 153-169)

    The two buttons as the JSX renders them from [base]. *)

Module BaseSwitch.

Record Button : Type := { label : string; disabled : bool; className : string }.

(** [<button disabled={base === name}
             className={`btn ${base === name ? "btn-disabled" : ""}`}>] *)
Definition button (name base : string) : Button :=
  {| label := name;
     disabled := String.eqb base name;
     className :=
       String.append "btn "
         (if String.eqb base name then "btn-disabled" else EmptyString) |}.

Definition render (base : string) : list Button :=
  [button "OSM" base; button "SAT" base].

End BaseSwitch.

(** * The vocabulary of the properties *)

Section Vocabulary.
Import JS Timeline OG.

(** A reading of the system clock that leaves room for the snap to the hour
    below it and for the 24 hours of the timeline above it. *)
Definition clockInRange (clock : Z) : Prop :=
  - MAX_TIME + msPerHour <= clock <= MAX_TIME - 24 * HOUR_MS.

(** The instant [t] is a full hour on a clock that is [off] ms ahead of
    UTC. *)
Definition onTheHour (off t : Z) : Prop := (t + off) mod msPerHour = 0.

(** The time value [now] holds for a given zone offset and clock reading. *)
Definition nowTime (tza clock : Z) : Z := clock - (clock + tza) mod msPerHour.

(** The top of the hour a local time value lies in. *)
Definition hourStart (t : Z) : Z := t - t mod msPerHour.

(** The offsets of a zone stay within a day of UTC. *)
Definition boundedZone (z : Zone) : Prop :=
  forall t,
    (- msPerDay <= offsetAt z t <= msPerDay) /\
    (- msPerDay <= offsetOfLocal z t <= msPerDay).

(** A reading of the system clock at least three days inside the range of
    time values: room for the offsets of a zone and for the 24 hours of the
    timeline. *)
Definition clockWellInRange (clock : Z) : Prop :=
  - MAX_TIME + 3 * msPerDay <= clock <= MAX_TIME - 3 * msPerDay.

(** Every date the timeline shows: the two end labels and the selections
    of the slider. *)
Definition timelineDates (now : Date) : list Date :=
  now :: end_ now :: map (selectedDate now) sliderPositions.

(** Sample environments: a clock reading (2023-11-14T22:13:20Z), Dallas on
    standard and on daylight time, and a browser in a zone 5 h 30 min ahead
    of UTC. *)
Definition sampleClock : Z := 1700000000000.
Definition CST : Z := -21600000.
Definition CDT : Z := -18000000.
Definition halfHourZone : Z := 19800000.

(** America/Chicago around the end of daylight time in 2023: at
    2023-11-05T07:00:00Z the clocks went from 2:00 CDT back to 1:00 CST, so
    the local hour from 1:00 to 2:00 came twice, and a local time before
    2:00 is read on daylight time. *)
Definition fallBack2023 : Z := 1699167600000.
Definition chicago2023 : Zone :=
  {| offsetAt := fun t => if t <? fallBack2023 then CDT else CST;
     offsetOfLocal := fun l => if l <? fallBack2023 + CDT then CDT else CST |}.

(** A reading during the second pass of that hour: 2023-11-05T07:30:00Z,
    1:30 CST. *)
Definition repeatedHourClock : Z := 1699169400000.

(** What an engine answers for [{ timeZone: TZ, timeZoneName: "short" }] on
    a winter date: "11/14/2023, CST". *)
Definition sampleEngine : Z -> list Part :=
  fun _ =>
    [ {| type := "month"; value := "11" |}; {| type := "literal"; value := "/" |};
      {| type := "day"; value := "14" |}; {| type := "literal"; value := "/" |};
      {| type := "year"; value := "2023" |}; {| type := "literal"; value := ", " |};
      {| type := "timeZoneName"; value := "CST" |} ].

Definition isZoneName (p : Part) : bool := String.eqb (type p) "timeZoneName".

(** The handler [h] leaves every piece of component state and every layer
    as it was. *)
Definition Imperative_keepsState (h : Imperative.State -> Imperative.State) : Prop :=
  forall s,
    Imperative.showIntro (h s) = Imperative.showIntro s /\
    Imperative.sliderIdx (h s) = Imperative.sliderIdx s /\
    Imperative.base (h s) = Imperative.base s /\
    Imperative.store (h s) = Imperative.store s /\
    Imperative.osmVisible (h s) = Imperative.osmVisible s /\
    Imperative.satVisible (h s) = Imperative.satVisible s /\
    Imperative.shown (h s) = Imperative.shown s.

Definition Declarative_keepsState (h : Declarative.State -> Declarative.State) : Prop :=
  forall s,
    Declarative.showIntro (h s) = Declarative.showIntro s /\
    Declarative.sliderIdx (h s) = Declarative.sliderIdx s /\
    Declarative.base (h s) = Declarative.base s /\
    Declarative.layersProp (h s) = Declarative.layersProp s.

Definition Prototype_keepsState (h : Prototype.State -> Prototype.State) : Prop :=
  forall s,
    Prototype.currentLayer (h s) = Prototype.currentLayer s /\
    Prototype.store (h s) = Prototype.store s /\
    Prototype.shown (h s) = Prototype.shown s.

(** With no globe the handler [h] does nothing, and returns. *)
Definition Imperative_idleWithoutGlobe
    (h : Imperative.State -> Imperative.State)
    (ends : Imperative.State -> Completion unit) : Prop :=
  forall s, Imperative.globus s = None -> h s = s /\ ends s = Return tt.

Definition Declarative_idleWithoutGlobe
    (h : Declarative.State -> Declarative.State)
    (ends : Declarative.State -> Completion unit) : Prop :=
  forall s, Declarative.globeRef s = None -> h s = s /\ ends s = Return tt.

Definition Prototype_idleWithoutGlobe
    (h : Prototype.State -> Prototype.State)
    (ends : Prototype.State -> Completion unit) : Prop :=
  forall s, Prototype.globus s = None -> h s = s /\ ends s = Return tt.

(** On a globe the handler [h] has the camera carry out the one call [c],
    changes nothing else, and returns. *)
Definition Imperative_sendsCamera (c : CameraCall)
    (h : Imperative.State -> Imperative.State)
    (ends : Imperative.State -> Completion unit) : Prop :=
  forall s g, Imperative.globus s = Some g ->
    h s = Imperative.setGlobus
            (Some {| layers := layers g; cameraCalls := cameraCalls g ++ [c] |}) s /\
    ends s = Return tt.

Definition Declarative_sendsCamera (c : CameraCall)
    (h : Declarative.State -> Declarative.State)
    (ends : Declarative.State -> Completion unit) : Prop :=
  forall s g, Declarative.globeRef s = Some g ->
    Declarative.globeRef (h s) =
      Some {| layers := layers g; cameraCalls := cameraCalls g ++ [c] |} /\
    ends s = Return tt.

Definition Prototype_sendsCamera (c : CameraCall)
    (h : Prototype.State -> Prototype.State)
    (ends : Prototype.State -> Completion unit) : Prop :=
  forall s g, Prototype.globus s = Some g ->
    Prototype.globus (h s) =
      Some {| layers := layers g; cameraCalls := cameraCalls g ++ [c] |} /\
    ends s = Return tt.

(** On a globe the handler [h] ends in a TypeError and leaves the whole
    state, the camera's record included, as it was. *)
Definition Imperative_throwsOnGlobe
    (h : Imperative.State -> Imperative.State)
    (ends : Imperative.State -> Completion unit) : Prop :=
  forall s, is_Some (Imperative.globus s) -> h s = s /\ ends s = Throw TypeError.

Definition Declarative_throwsOnGlobe
    (h : Declarative.State -> Declarative.State)
    (ends : Declarative.State -> Completion unit) : Prop :=
  forall s, is_Some (Declarative.globeRef s) -> h s = s /\ ends s = Throw TypeError.

Definition Prototype_throwsOnGlobe
    (h : Prototype.State -> Prototype.State)
    (ends : Prototype.State -> Completion unit) : Prop :=
  forall s, is_Some (Prototype.globus s) -> h s = s /\ ends s = Throw TypeError.

(** The guard of [switchLayer] lets the call through. *)
Definition ready (s : Imperative.State) : Prop :=
  is_Some (Imperative.globus s) /\ is_Some (Imperative.osmRef s) /\
  is_Some (Imperative.satRef s).

(** The state the effect leaves and the handlers keep: the globe holds the
    two layers the refs name, an OpenStreetMap layer and a Bing layer. *)
Definition wellFormed (s : Imperative.State) : Prop :=
  exists g osm sat lo ls,
    Imperative.globus s = Some g /\ layers g = [osm; sat] /\
    Imperative.osmRef s = Some osm /\ Imperative.satRef s = Some sat /\
    osm <> sat /\
    Imperative.store s !! osm = Some lo /\ provider lo = OpenStreetMap /\
    Imperative.store s !! sat = Some ls /\ provider ls = Bing.

Inductive BaseButton : Type :=
| OSM
| SAT.

Definition buttonName (b : BaseButton) : string :=
  match b with
  | OSM => "OSM"
  | SAT => "SAT"
  end.

(** What a user does to the mounted component. *)
Inductive UserOp : Type :=
| MoveSlider (v : Z)
| PressBase (b : BaseButton)
| PressZoomIn
| PressZoomOut
| PressCompass.

Definition inImperative (o : UserOp) : Imperative.Event :=
  match o with
  | MoveSlider v => Imperative.ChangeSlider v
  | PressBase b => Imperative.ClickBase (buttonName b)
  | PressZoomIn => Imperative.CallZoomIn
  | PressZoomOut => Imperative.CallZoomOut
  | PressCompass => Imperative.CallResetCompass
  end.

Definition inDeclarative (o : UserOp) : Declarative.Event :=
  match o with
  | MoveSlider v => Declarative.ChangeSlider v
  | PressBase b => Declarative.ClickBase (buttonName b)
  | PressZoomIn => Declarative.ClickZoomIn
  | PressZoomOut => Declarative.ClickZoomOut
  | PressCompass => Declarative.ClickResetCompass
  end.

(** part_004 has no slider. *)
Definition inPrototype (o : UserOp) : list Prototype.Event :=
  match o with
  | MoveSlider _ => []
  | PressBase b => [Prototype.ClickBase (buttonName b)]
  | PressZoomIn => [Prototype.ClickZoomIn]
  | PressZoomOut => [Prototype.ClickZoomOut]
  | PressCompass => [Prototype.ClickResetCompass]
  end.

Definition runImperative (ops : list UserOp) : Imperative.State :=
  Imperative.run (map inImperative ops) Imperative.mounted.
Definition runDeclarative (ops : list UserOp) : Declarative.State :=
  Declarative.run (map inDeclarative ops) Declarative.initial.
Definition runPrototype (ops : list UserOp) : Prototype.State :=
  Prototype.run (concat (map inPrototype ops)) Prototype.mounted.

(** What the states of App.jsx and of part_005 have in common after the same
    operations. *)
Definition agree (si : Imperative.State) (sd : Declarative.State) : Prop :=
  Imperative.sliderIdx si = Declarative.sliderIdx sd /\
  Imperative.base si = Declarative.base sd /\
  (Imperative.base si = "OSM" \/ Imperative.base si = "SAT") /\
  wellFormed si /\
  Imperative.shown si =
    [if String.eqb (Imperative.base si) "OSM" then OpenStreetMap else Bing].

(** Every layer part_004 has made is an OpenStreetMap layer. *)
Definition onlyOpenStreetMap (s : Prototype.State) : Prop :=
  forall l ly, Prototype.store s !! l = Some ly -> provider ly = OpenStreetMap.

(** Which events are a click on the overlay's background, and which value an
    event of the slider carries. *)
Definition Imperative_dismisses (e : Imperative.Event) : bool :=
  match e with Imperative.ClickIntro => true | _ => false end.
Definition Declarative_dismisses (e : Declarative.Event) : bool :=
  match e with Declarative.ClickIntro => true | _ => false end.
Definition InlineStyled_dismisses (e : InlineStyled.Event) : bool :=
  match e with InlineStyled.ClickIntro => true | _ => false end.

Definition Imperative_slides (e : Imperative.Event) : option Z :=
  match e with Imperative.ChangeSlider v => Some v | _ => None end.
Definition Declarative_slides (e : Declarative.Event) : option Z :=
  match e with Declarative.ChangeSlider v => Some v | _ => None end.
Definition InlineStyled_slides (e : InlineStyled.Event) : option Z :=
  match e with InlineStyled.ChangeSlider v => Some v | _ => None end.

(** Of the two layers the refs name, one is visible and the other is not. *)
Definition oneVisible (s : Imperative.State) : Prop :=
  exists g osm sat lo ls,
    Imperative.globus s = Some g /\ layers g = [osm; sat] /\
    Imperative.osmRef s = Some osm /\ Imperative.satRef s = Some sat /\
    osm <> sat /\
    Imperative.store s !! osm = Some lo /\ provider lo = OpenStreetMap /\
    Imperative.store s !! sat = Some ls /\ provider ls = Bing /\
    visibility ls = negb (visibility lo).

(** The effect is the one event that makes layers. *)
Definition Imperative_isEffect (e : Imperative.Event) : bool :=
  match e with Imperative.RunEffect => true | _ => false end.

(** The layer array of part_004's globe is empty or holds one layer, which
    is an OpenStreetMap layer as the constructor makes it. *)
Definition atMostOneLayer (s : Prototype.State) : Prop :=
  match Prototype.globus s with
  | None => True
  | Some g =>
      layers g = [] \/
      exists l, layers g = [l] /\
                Prototype.store s !! l = Some (new_Layer OpenStreetMap)
  end.

(** The base button a user operation presses. *)
Definition pressed (o : UserOp) : option BaseButton :=
  match o with PressBase b => Some b | _ => None end.

(** The globe of App.jsx, when there is one, was last sent to [US_VIEW]. *)
Definition aimedAtUS (s : Imperative.State) : Prop :=
  match Imperative.globus s with
  | None => True
  | Some g => lastView (cameraCalls g) = Some Imperative.US_VIEW
  end.

Definition Prototype_isEffect (e : Prototype.Event) : bool :=
  match e with Prototype.RunEffect => true | _ => false end.

(** How many listeners of a list call the renderer. *)
Definition resizeHandlers (ls : list (nat * Window.Kind)) : nat :=
  length (filter (fun l => snd l = Window.HandleResize) ls).

(** How often a run of clicks hits the box at index [i], and the box a
    click count makes of a box. *)
Definition clicksOn (i : nat) (idxs : list nat) : nat :=
  length (filter (fun j => j = i) idxs).

Definition toggled (n : nat) (b : LayerList.Box) : LayerList.Box :=
  {| LayerList.label := LayerList.label b;
     LayerList.checked := xorb (LayerList.checked b) (Nat.odd n);
     LayerList.backgroundColor :=
       LayerList.colourOf (xorb (LayerList.checked b) (Nat.odd n)) |}.

Definition coloured (b : LayerList.Box) : Prop :=
  LayerList.backgroundColor b = LayerList.colourOf (LayerList.checked b).

End Vocabulary.

(** * Properties *)

(** ** Dates and the timeline *)

Section TimelineFacts.
Import JS Timeline.

Lemma MakeDate_hour_floor (t : Z) :
  MakeDate (Day t) (MakeTime (HourFromTime t) 0 0 0) = t - t mod msPerHour.
Proof.
  unfold MakeDate, MakeTime, Day, HourFromTime, msPerDay, msPerHour,
    msPerMinute, msPerSecond.
  Z.div_mod_to_equations. lia.
Qed.

Lemma TimeClip_in_range (z : Z) :
  - MAX_TIME <= z <= MAX_TIME -> TimeClip (Int z) = ValidDate z.
Proof.
  intros Hz. unfold TimeClip.
  destruct (Z.leb_spec (Z.abs z) MAX_TIME) as [_ | Hgt]; [reflexivity | lia].
Qed.

Lemma nowTime_bounds (tza clock : Z) :
  clock - msPerHour < nowTime tza clock <= clock.
Proof.
  unfold nowTime.
  pose proof (Z.mod_pos_bound (clock + tza) msPerHour eq_refl). lia.
Qed.

Lemma now_value (tza clock : Z) :
  clockInRange clock -> now tza clock = ValidDate (nowTime tza clock).
Proof.
  intros Hc. unfold now, Date_now.
  pose proof (nowTime_bounds tza clock) as Hb.
  unfold clockInRange, nowTime, MAX_TIME, HOUR_MS, msPerHour in Hc, Hb.
  rewrite TimeClip_in_range by (unfold MAX_TIME; lia).
  unfold setMinutes. rewrite MakeDate_hour_floor.
  unfold UTC, LocalTime, nowTime.
  replace (clock + tza - (clock + tza) mod msPerHour - tza)
    with (clock - (clock + tza) mod msPerHour) by lia.
  apply TimeClip_in_range. unfold MAX_TIME, msPerHour. lia.
Qed.

Lemma selectedDate_value (tza clock i : Z) :
  clockInRange clock -> 0 <= i <= 24 ->
  selectedDate (now tza clock) i = ValidDate (nowTime tza clock + i * HOUR_MS).
Proof.
  intros Hc Hi. rewrite (now_value _ _ Hc).
  unfold selectedDate, new_Date. cbn [getTime add mul].
  apply TimeClip_in_range.
  pose proof (nowTime_bounds tza clock) as Hb.
  unfold clockInRange, MAX_TIME, HOUR_MS, msPerHour in *.
  lia.
Qed.

Lemma nowTime_onTheHour (tza clock : Z) : onTheHour tza (nowTime tza clock).
Proof.
  unfold onTheHour, nowTime.
  replace (clock - (clock + tza) mod msPerHour + tza)
    with (clock + tza - (clock + tza) mod msPerHour) by lia.
  unfold msPerHour. Z.div_mod_to_equations. lia.
Qed.

Lemma onTheHour_plus_hours (off t i : Z) :
  onTheHour off t -> onTheHour off (t + i * HOUR_MS).
Proof.
  unfold onTheHour, HOUR_MS, msPerHour. intros H.
  replace (t + i * 3600000 + off) with (t + off + i * 3600000) by lia.
  rewrite Z.mod_add by lia. exact H.
Qed.

Lemma onTheHour_fields (off t : Z) :
  onTheHour off t ->
  MinFromTime (t + off) = 0 /\ SecFromTime (t + off) = 0 /\ msFromTime (t + off) = 0.
Proof.
  unfold onTheHour, MinFromTime, SecFromTime, msFromTime, msPerHour,
    msPerMinute, msPerSecond.
  intros H. Z.div_mod_to_equations. lia.
Qed.

Lemma hourStart_fields (t : Z) :
  Day (hourStart t) = Day t /\
  HourFromTime (hourStart t) = HourFromTime t /\
  MinFromTime (hourStart t) = 0 /\
  SecFromTime (hourStart t) = 0 /\
  msFromTime (hourStart t) = 0.
Proof.
  unfold hourStart, Day, HourFromTime, MinFromTime, SecFromTime, msFromTime,
    msPerDay, msPerHour, msPerMinute, msPerSecond.
  repeat split; Z.div_mod_to_equations; lia.
Qed.

Lemma hourStart_bounds (t : Z) : t - msPerHour < hourStart t <= t.
Proof.
  unfold hourStart. pose proof (Z.mod_pos_bound t msPerHour eq_refl). lia.
Qed.

Lemma nowIn_value (z : Zone) (clock : Z) :
  boundedZone z -> clockWellInRange clock ->
  nowIn z clock = ValidDate (UTCIn z (hourStart (LocalTimeIn z clock))) /\
  - MAX_TIME <= UTCIn z (hourStart (LocalTimeIn z clock)) /\
  UTCIn z (hourStart (LocalTimeIn z clock)) + 24 * HOUR_MS <= MAX_TIME.
Proof.
  intros Hz Hc.
  assert (Hclock : TimeClip (Int clock) = ValidDate clock).
  { apply TimeClip_in_range. unfold clockWellInRange, MAX_TIME, msPerDay in *. lia. }
  unfold nowIn, Date_now. rewrite Hclock.
  unfold setMinutesIn. rewrite MakeDate_hour_floor.
  fold (hourStart (LocalTimeIn z clock)).
  pose proof (hourStart_bounds (LocalTimeIn z clock)) as Hb.
  destruct (Hz clock) as [Ha _].
  destruct (Hz (hourStart (LocalTimeIn z clock))) as [_ Hl].
  unfold UTCIn.
  generalize dependent (hourStart (LocalTimeIn z clock)). intros l0 Hb.
  generalize (offsetOfLocal z l0). intros o0 Hl.
  unfold LocalTimeIn in Hb. revert Ha Hb.
  generalize (offsetAt z clock). intros o1 Ha Hb.
  unfold clockWellInRange, MAX_TIME, HOUR_MS, msPerDay, msPerHour in *.
  rewrite TimeClip_in_range by (unfold MAX_TIME; lia).
  repeat split; lia.
Qed.

Lemma selectedDate_nowIn (z : Zone) (clock i : Z) :
  boundedZone z -> clockWellInRange clock -> 0 <= i <= 24 ->
  selectedDate (nowIn z clock) i =
    ValidDate (UTCIn z (hourStart (LocalTimeIn z clock)) + i * HOUR_MS).
Proof.
  intros Hz Hc Hi. destruct (nowIn_value z clock Hz Hc) as (-> & Hlo & Hhi).
  unfold selectedDate, new_Date. cbn [getTime add mul].
  apply TimeClip_in_range.
  unfold HOUR_MS, msPerHour, MAX_TIME in *. lia.
Qed.

Lemma now_nowIn (tza clock : Z) : now tza clock = nowIn (fixedZone tza) clock.
Proof. reflexivity. Qed.

Lemma clockWellInRange_clockInRange (clock : Z) :
  clockWellInRange clock -> clockInRange clock.
Proof.
  unfold clockWellInRange, clockInRange, MAX_TIME, HOUR_MS, msPerDay, msPerHour. lia.
Qed.

Lemma chicago2023_bounded : boundedZone chicago2023.
Proof.
  intros t. cbn [offsetAt offsetOfLocal chicago2023].
  destruct (t <? fallBack2023), (t <? fallBack2023 + CDT);
    unfold CDT, CST, msPerDay; lia.
Defined.

Lemma sliderPositions_list :
  sliderPositions =
    [0; 1; 2; 3; 4; 5; 6; 7; 8; 9; 10; 11; 12; 13; 14; 15; 16; 17; 18; 19;
     20; 21; 22; 23; 24].
Proof. reflexivity. Qed.

Lemma sliderPositions_range (i : Z) : In i sliderPositions <-> 0 <= i <= 24.
Proof.
  rewrite sliderPositions_list. split.
  - cbn [In]. intros H. repeat (destruct H as [<- | H]; [lia |]). contradiction.
  - intros H.
    change (In i (map (fun k => 0 + Z.of_nat k * 1) (seq 0 25))).
    apply in_map_iff. exists (Z.to_nat i).
    split; [lia | apply in_seq; lia].
Qed.

End TimelineFacts.

Section TimelineClaims.
Import JS Timeline.

Lemma sampleClock_in_range : clockInRange sampleClock.
Proof. unfold clockInRange, sampleClock, MAX_TIME, msPerHour, HOUR_MS. lia. Defined.

(** C1: the timeline slider has exactly the 25 positions 0, 1, ..., 24 (min
    0, max 24, step 1), and at every one of them the selected date is the
    hour-snapped [now] plus exactly [i * 3,600,000] milliseconds, in every
    browser zone whose offsets stay within a day of UTC and at every clock
    reading at least three days inside the range of time values.  [now]
    is hour-snapped in this sense: it is the instant the browser's zone
    assigns to the top of the local hour the clock reading lies in, a local
    time of the same day and hour as the reading whose minutes, seconds and
    milliseconds are zero, and [now] itself reads zero minutes, seconds and
    milliseconds whenever the zone shows that local time at that instant;
    in a zone that keeps one offset it always does. *)
Theorem slider_positions_select_hourly_dates (z : Zone) (clock : Z) :
  boundedZone z -> clockWellInRange clock ->
  sliderPositions = map Z.of_nat (seq 0 25) /\
  length sliderPositions = 25%nat /\
  NoDup sliderPositions /\
  (forall i, In i sliderPositions <-> 0 <= i <= 24) /\
  (exists t0,
     nowIn z clock = ValidDate t0 /\
     t0 = UTCIn z (hourStart (LocalTimeIn z clock)) /\
     Day (hourStart (LocalTimeIn z clock)) = Day (LocalTimeIn z clock) /\
     HourFromTime (hourStart (LocalTimeIn z clock)) = HourFromTime (LocalTimeIn z clock) /\
     MinFromTime (hourStart (LocalTimeIn z clock)) = 0 /\
     SecFromTime (hourStart (LocalTimeIn z clock)) = 0 /\
     msFromTime (hourStart (LocalTimeIn z clock)) = 0 /\
     (LocalTimeIn z t0 = hourStart (LocalTimeIn z clock) ->
      getMinutesIn z (nowIn z clock) = Int 0 /\
      getSecondsIn z (nowIn z clock) = Int 0 /\
      getMillisecondsIn z (nowIn z clock) = Int 0) /\
     (forall i, In i sliderPositions ->
        selectedDate (nowIn z clock) i = ValidDate (t0 + i * 3600000))) /\
  (forall tza,
     now tza clock = nowIn (fixedZone tza) clock /\
     getMinutes tza (now tza clock) = Int 0 /\
     getSeconds tza (now tza clock) = Int 0 /\
     getMilliseconds tza (now tza clock) = Int 0).
Proof.
  intros Hz Hc. split; [reflexivity |]. split; [reflexivity |].
  split.
  { apply (bool_decide_unpack _). vm_compute. exact I. }
  split; [exact sliderPositions_range |].
  split.
  - exists (UTCIn z (hourStart (LocalTimeIn z clock))).
    destruct (nowIn_value z clock Hz Hc) as (Hnow & _).
    destruct (hourStart_fields (LocalTimeIn z clock)) as (Hd & Hh & Hm & Hs & Hms).
    split; [exact Hnow |]. split; [reflexivity |].
    split; [exact Hd |]. split; [exact Hh |].
    split; [exact Hm |]. split; [exact Hs |]. split; [exact Hms |].
    split.
    + intros Hback. rewrite Hnow.
      cbn [getMinutesIn getSecondsIn getMillisecondsIn].
      rewrite Hback, Hm, Hs, Hms. repeat split; reflexivity.
    + intros i Hi. apply sliderPositions_range in Hi.
      exact (selectedDate_nowIn z clock i Hz Hc Hi).
  - intros tza. split; [reflexivity |].
    rewrite (now_value tza clock (clockWellInRange_clockInRange clock Hc)).
    destruct (onTheHour_fields tza _ (nowTime_onTheHour tza clock)) as (Hm & Hs & Hms).
    cbn [getMinutes getSeconds getMilliseconds]. unfold LocalTime.
    rewrite Hm, Hs, Hms. repeat split; reflexivity.
Qed.

Lemma slider_positions_select_hourly_dates_witness :
  boundedZone chicago2023 /\
  clockWellInRange repeatedHourClock /\
  nowIn chicago2023 repeatedHourClock = ValidDate 1699164000000 /\
  getMinutesIn chicago2023 (nowIn chicago2023 repeatedHourClock) = Int 0 /\
  (forall i, In i sliderPositions ->
     selectedDate (nowIn chicago2023 repeatedHourClock) i =
       ValidDate (1699164000000 + i * 3600000)).
Proof.
  assert (Hc : clockWellInRange repeatedHourClock).
  { unfold clockWellInRange, repeatedHourClock, MAX_TIME, msPerDay. lia. }
  split; [exact chicago2023_bounded |]. split; [exact Hc |].
  destruct (slider_positions_select_hourly_dates chicago2023 repeatedHourClock
              chicago2023_bounded Hc)
    as (_ & _ & _ & _ & (t0 & Hnow & Ht0 & _ & _ & _ & _ & _ & Hback & Hsel) & _).
  assert (Hv : t0 = 1699164000000) by (rewrite Ht0; reflexivity).
  clear Ht0. subst t0. split; [exact Hnow |].
  split; [apply Hback; reflexivity | exact Hsel].
Defined.

(** C6: [end] is [now] plus exactly 24 hours, and the selected date at the
    largest slider index, 24, is that same instant: the right edge of the
    timeline is [now + 24 h]. *)
Theorem end_is_selected_date_at_max (tza clock : Z) :
  clockInRange clock ->
  exists t0,
    now tza clock = ValidDate t0 /\
    end_ (now tza clock) = ValidDate (t0 + 24 * 3600000) /\
    24 * 3600000 = msPerDay /\
    last sliderPositions = Some maxIdx /\
    maxIdx = 24 /\
    selectedDate (now tza clock) maxIdx = end_ (now tza clock).
Proof.
  intros Hc. exists (nowTime tza clock).
  split; [exact (now_value tza clock Hc) |].
  assert (Hsel : selectedDate (now tza clock) maxIdx = end_ (now tza clock))
    by reflexivity.
  split.
  { rewrite <- Hsel. apply (selectedDate_value tza clock 24 Hc). lia. }
  repeat split; try reflexivity.
Qed.

Lemma end_is_selected_date_at_max_witness :
  clockInRange sampleClock /\
  selectedDate (now CDT sampleClock) maxIdx = end_ (now CDT sampleClock) /\
  end_ (now CDT sampleClock) = ValidDate (1699999200000 + 24 * 3600000).
Proof.
  split; [exact sampleClock_in_range |].
  destruct (end_is_selected_date_at_max CDT sampleClock sampleClock_in_range)
    as (t0 & Hnow & Hend & _ & _ & _ & Hsel).
  split; [exact Hsel |].
  rewrite Hend. f_equal. f_equal.
  assert (Hv : now CDT sampleClock = ValidDate 1699999200000) by reflexivity.
  congruence.
Defined.

Lemma timelineDates_valid (tza clock : Z) (d : Date) :
  clockInRange clock -> In d (timelineDates (now tza clock)) ->
  exists t, d = ValidDate t /\ onTheHour tza t.
Proof.
  intros Hc Hd. unfold timelineDates in Hd.
  destruct Hd as [<- | [<- | Hd]].
  - exists (nowTime tza clock). split; [exact (now_value _ _ Hc) |].
    apply nowTime_onTheHour.
  - exists (nowTime tza clock + 24 * HOUR_MS). split.
    + change (end_ (now tza clock)) with (selectedDate (now tza clock) 24).
      apply selectedDate_value; [exact Hc | lia].
    + apply onTheHour_plus_hours, nowTime_onTheHour.
  - apply in_map_iff in Hd. destruct Hd as (i & <- & Hi).
    apply sliderPositions_range in Hi.
    exists (nowTime tza clock + i * HOUR_MS). split.
    + apply selectedDate_value; assumption.
    + apply onTheHour_plus_hours, nowTime_onTheHour.
Qed.

Lemma minute_in_other_zone (tza z t : Z) :
  onTheHour tza t -> MinFromTime (t + z) = ((z - tza) mod msPerHour) / msPerMinute.
Proof.
  unfold onTheHour, MinFromTime, msPerHour, msPerMinute. intros H.
  Z.div_mod_to_equations. lia.
Qed.




End TimelineClaims.

(** ** The time-zone abbreviation *)

Section ZoneName.
Import JS Timeline.

Lemma orCT_nonempty (x : option string) : orCT x <> EmptyString.
Proof. destruct x as [[| c s] |]; discriminate. Qed.

Lemma find_first (A : Type) (f : A -> bool) (pre post : list A) (p : A) :
  (forall q, In q pre -> f q = false) -> f p = true ->
  List.find f (pre ++ p :: post) = Some p.
Proof.
  intros Hpre Hp. induction pre as [| q pre IH]; cbn [app List.find].
  - rewrite Hp. reflexivity.
  - rewrite (Hpre q (or_introl eq_refl)). apply IH.
    intros r Hr. apply Hpre. right. exact Hr.
Qed.

Lemma find_none (A : Type) (f : A -> bool) (l : list A) :
  (forall q, In q l -> f q = false) -> List.find f l = None.
Proof.
  intros H. induction l as [| q l IH]; cbn [List.find]; [reflexivity |].
  rewrite (H q (or_introl eq_refl)). apply IH.
  intros r Hr. apply H. right. exact Hr.
Qed.

(** C9, as the code has it: on every valid date [fmtTZShort] returns a
    string that is not empty: the value of the first [timeZoneName] part
    when there is one and its value is not empty, and "CT" otherwise.  The
    fallback does not cover an invalid date: there [formatToParts] throws
    its RangeError and so does [fmtTZShort].  The dates the component hands
    to it, the selections of the slider, are valid ones. *)
Theorem fmtTZShort_total_on_valid_dates (engine : Z -> list Part) (t : Z) :
  (exists s, fmtTZShort engine (ValidDate t) = Return s /\ s <> EmptyString) /\
  (forall pre p post,
      engine t = pre ++ p :: post ->
      (forall q, In q pre -> isZoneName q = false) ->
      isZoneName p = true ->
      fmtTZShort engine (ValidDate t) =
        Return (if String.eqb (value p) EmptyString then "CT" else value p)) /\
  ((forall q, In q (engine t) -> isZoneName q = false) ->
      fmtTZShort engine (ValidDate t) = Return "CT") /\
  fmtTZShort engine InvalidDate = Throw RangeError /\
  (forall tza clock i,
      clockInRange clock -> In i sliderPositions ->
      exists s, fmtTZShort engine (selectedDate (now tza clock) i) = Return s /\
                s <> EmptyString).
Proof.
  unfold fmtTZShort. cbn [formatToParts].
  split; [| split; [| split; [| split]]]; cycle 4.
  { intros tza clock i Hc Hi. apply sliderPositions_range in Hi.
    rewrite (selectedDate_value tza clock i Hc Hi). cbn [formatToParts].
    eexists. split; [reflexivity | apply orCT_nonempty]. }
  - eexists. split; [reflexivity | apply orCT_nonempty].
  - intros pre p post Heq Hpre Hp. rewrite Heq.
    fold isZoneName. rewrite (find_first _ isZoneName pre post p Hpre Hp).
    cbn. destruct (value p); reflexivity.
  - intros Hnone. fold isZoneName.
    rewrite (find_none _ isZoneName (engine t) Hnone). reflexivity.
  - reflexivity.
Qed.

Lemma fmtTZShort_total_on_valid_dates_witness :
  fmtTZShort sampleEngine (ValidDate sampleClock) = Return "CST" /\
  fmtTZShort (fun _ => []) (ValidDate sampleClock) = Return "CT".
Proof.
  split.
  - apply (proj1 (proj2 (fmtTZShort_total_on_valid_dates sampleEngine sampleClock))
             (firstn 6 (sampleEngine sampleClock))
             {| type := "timeZoneName"; value := "CST" |} []).
    + reflexivity.
    + cbn. intros q Hq.
      repeat (destruct Hq as [<- | Hq]; [reflexivity |]). contradiction.
    + reflexivity.
  - apply (proj1 (proj2 (proj2
             (fmtTZShort_total_on_valid_dates (fun _ => []) sampleClock)))).
    intros q Hq. contradiction.
Defined.

(** C9 fails as it is stated: [fmtTZShort] is not total on dates.  On the
    invalid date it throws, whatever the engine would answer. *)
Lemma fmtTZShort_throws_on_invalid_date :
  fmtTZShort sampleEngine (new_Date NaN) = Throw RangeError /\
  ~ (forall d : Date, exists s, fmtTZShort sampleEngine d = Return s /\ s <> EmptyString).
Proof.
  split; [reflexivity |].
  intros H. destruct (H InvalidDate) as (s & Hs & _). discriminate Hs.
Qed.

End ZoneName.

(** ** The intro overlay *)

Section Intro.

Lemma Imperative_effect_showIntro (s : Imperative.State) :
  Imperative.showIntro (Imperative.effect s) = Imperative.showIntro s.
Proof.
  unfold Imperative.effect. destruct (Imperative.globeRef s); reflexivity.
Qed.

Lemma Imperative_switchLayer_showIntro (name : string) (s : Imperative.State) :
  Imperative.showIntro (Imperative.switchLayer name s) = Imperative.showIntro s.
Proof.
  unfold Imperative.switchLayer.
  destruct (Imperative.globus s), (Imperative.osmRef s), (Imperative.satRef s);
    reflexivity.
Qed.

Lemma lastView_snoc (calls : list OG.CameraCall) (v : OG.View) :
  OG.lastView (calls ++ [OG.flyLonLat v]) = Some v.
Proof.
  unfold OG.lastView. rewrite rev_app_distr. reflexivity.
Qed.

Lemma Imperative_camera_cases (r : OG.Request) (s : Imperative.State) :
  Imperative.camera r s = s \/
  exists g v, r = OG.ask_flyLonLat v /\ Imperative.globus s = Some g /\
    Imperative.camera r s =
      Imperative.setGlobus (Some (OG.callCamera (OG.flyLonLat v) g)) s.
Proof.
  unfold Imperative.camera, Imperative.cameraCall.
  destruct (Imperative.globus s) as [g |] eqn:Hg; [| left; reflexivity].
  destruct r; cbn; [right; eauto | left; reflexivity ..].
Qed.

Lemma Declarative_camera_cases (r : OG.Request) (s : Declarative.State) :
  Declarative.camera r s = s \/
  exists g v, r = OG.ask_flyLonLat v /\ Declarative.globeRef s = Some g /\
    Declarative.camera r s =
      {| Declarative.showIntro := Declarative.showIntro s;
         Declarative.sliderIdx := Declarative.sliderIdx s;
         Declarative.base := Declarative.base s;
         Declarative.globeRef := Some (OG.callCamera (OG.flyLonLat v) g) |}.
Proof.
  unfold Declarative.camera, Declarative.cameraCall.
  destruct (Declarative.globeRef s) as [g |] eqn:Hg; [| left; reflexivity].
  destruct r; cbn; [right; eauto | left; reflexivity ..].
Qed.

Lemma Prototype_camera_cases (r : OG.Request) (s : Prototype.State) :
  Prototype.camera r s = s \/
  exists g v, r = OG.ask_flyLonLat v /\ Prototype.globus s = Some g /\
    Prototype.camera r s =
      {| Prototype.globeRef := Prototype.globeRef s;
         Prototype.globus := Some (OG.callCamera (OG.flyLonLat v) g);
         Prototype.currentLayer := Prototype.currentLayer s;
         Prototype.store := Prototype.store s |}.
Proof.
  unfold Prototype.camera, Prototype.cameraCall.
  destruct (Prototype.globus s) as [g |] eqn:Hg; [| left; reflexivity].
  destruct r; cbn; [right; eauto | left; reflexivity ..].
Qed.

Lemma Imperative_camera_showIntro (r : OG.Request) (s : Imperative.State) :
  Imperative.showIntro (Imperative.camera r s) = Imperative.showIntro s.
Proof.
  destruct (Imperative_camera_cases r s) as [-> | (g & v & _ & _ & ->)]; reflexivity.
Qed.

Lemma Declarative_camera_showIntro (r : OG.Request) (s : Declarative.State) :
  Declarative.showIntro (Declarative.camera r s) = Declarative.showIntro s.
Proof.
  destruct (Declarative_camera_cases r s) as [-> | (g & v & _ & _ & ->)]; reflexivity.
Qed.

Lemma Imperative_step_keeps_dismissed (e : Imperative.Event) (s : Imperative.State) :
  Imperative.showIntro s = false ->
  Imperative.showIntro (Imperative.step e s) = false.
Proof.
  intros H. destruct e; cbn [Imperative.step];
    unfold Imperative.zoomIn, Imperative.zoomOut, Imperative.resetCompass;
    rewrite ?Imperative_effect_showIntro, ?Imperative_camera_showIntro;
    try exact H.
  - rewrite H. exact H.
  - destruct (String.eqb _ _); [exact H |].
    rewrite Imperative_switchLayer_showIntro. exact H.
  - rewrite Imperative_switchLayer_showIntro. exact H.
Qed.

Lemma Declarative_step_keeps_dismissed (e : Declarative.Event) (s : Declarative.State) :
  Declarative.showIntro s = false ->
  Declarative.showIntro (Declarative.step e s) = false.
Proof.
  intros H. destruct e; cbn [Declarative.step]; try exact H.
  - rewrite H. exact H.
  - destruct (String.eqb _ _); exact H.
  - unfold Declarative.zoomIn. rewrite Declarative_camera_showIntro. exact H.
  - unfold Declarative.zoomOut. rewrite Declarative_camera_showIntro. exact H.
  - unfold Declarative.resetCompass. rewrite Declarative_camera_showIntro. exact H.
Qed.

Lemma InlineStyled_step_keeps_dismissed (e : InlineStyled.Event) (s : InlineStyled.State) :
  InlineStyled.showIntro s = false ->
  InlineStyled.showIntro (InlineStyled.step e s) = false.
Proof.
  intros H. destruct e; cbn [InlineStyled.step]; try exact H.
  rewrite H. exact H.
Qed.

(** C4: the intro overlay starts visible, a click on its background sets
    [showIntro] to false, and from then on the flag stays false whatever
    happens to the component: no event sets it back to true.  This holds in
    each of the three files that have the overlay. *)
Theorem intro_dismissed_for_good :
  (Imperative.showIntro Imperative.initial = true /\
   (forall s, Imperative.showIntro (Imperative.step Imperative.ClickIntro s) = false) /\
   (forall s, Imperative.step Imperative.ClickIntroCard s = s) /\
   (forall es s, Imperative.showIntro s = false ->
                 Imperative.showIntro (Imperative.run es s) = false)) /\
  (Declarative.showIntro Declarative.initial = true /\
   (forall s, Declarative.showIntro (Declarative.step Declarative.ClickIntro s) = false) /\
   (forall s, Declarative.step Declarative.ClickIntroCard s = s) /\
   (forall es s, Declarative.showIntro s = false ->
                 Declarative.showIntro (Declarative.run es s) = false)) /\
  (InlineStyled.showIntro InlineStyled.initial = true /\
   (forall s, InlineStyled.showIntro (InlineStyled.step InlineStyled.ClickIntro s) = false) /\
   (forall s, InlineStyled.step InlineStyled.ClickIntroCard s = s) /\
   (forall es s, InlineStyled.showIntro s = false ->
                 InlineStyled.showIntro (InlineStyled.run es s) = false)).
Proof.
  repeat split.
  - intros s. cbn. destruct (Imperative.showIntro s) eqn:E; [reflexivity | exact E].
  - intros es. induction es as [| e es IH]; intros s H; [exact H |].
    apply IH, Imperative_step_keeps_dismissed, H.
  - intros s. cbn. destruct (Declarative.showIntro s) eqn:E; [reflexivity | exact E].
  - intros es. induction es as [| e es IH]; intros s H; [exact H |].
    apply IH, Declarative_step_keeps_dismissed, H.
  - intros s. cbn. destruct (InlineStyled.showIntro s) eqn:E; [reflexivity | exact E].
  - intros es. induction es as [| e es IH]; intros s H; [exact H |].
    apply IH, InlineStyled_step_keeps_dismissed, H.
Qed.

Lemma intro_dismissed_for_good_witness :
  Imperative.showIntro
    (Imperative.run
       [Imperative.ChangeSlider 5; Imperative.ClickBase "SAT"; Imperative.ClickIntro;
        Imperative.RunEffect; Imperative.CallResetCompass]
       (Imperative.step Imperative.ClickIntro Imperative.mounted)) = false.
Proof.
  apply (proj2 (proj2 (proj2 (proj1 intro_dismissed_for_good)))).
  apply (proj1 (proj2 (proj1 intro_dismissed_for_good))).
Defined.

End Intro.

(** ** The camera handlers *)

Section Camera.
Import OG.

Lemma Imperative_camera_keepsState (r : Request) :
  Imperative_keepsState (Imperative.camera r).
Proof.
  intros s.
  destruct (Imperative_camera_cases r s) as [-> | (g & v & _ & Hg & ->)];
    [repeat split |].
  unfold Imperative.osmVisible, Imperative.satVisible, Imperative.shown.
  cbn. rewrite Hg. repeat split.
Qed.

Lemma Declarative_camera_keepsState (r : Request) :
  Declarative_keepsState (Declarative.camera r).
Proof.
  intros s.
  destruct (Declarative_camera_cases r s) as [-> | (g & v & _ & Hg & ->)];
    repeat split.
Qed.

Lemma Prototype_camera_keepsState (r : Request) :
  Prototype_keepsState (Prototype.camera r).
Proof.
  intros s.
  destruct (Prototype_camera_cases r s) as [-> | (g & v & _ & Hg & ->)];
    [repeat split |].
  unfold Prototype.shown. cbn. rewrite Hg. repeat split.
Qed.

Lemma Imperative_camera_idle (r : Request) :
  Imperative_idleWithoutGlobe (Imperative.camera r)
    (fun s => snd (Imperative.cameraCall r s)).
Proof.
  intros s Hg. unfold Imperative.camera, Imperative.cameraCall.
  rewrite Hg. split; reflexivity.
Qed.

Lemma Declarative_camera_idle (r : Request) :
  Declarative_idleWithoutGlobe (Declarative.camera r)
    (fun s => snd (Declarative.cameraCall r s)).
Proof.
  intros s Hg. unfold Declarative.camera, Declarative.cameraCall.
  rewrite Hg. split; reflexivity.
Qed.

Lemma Prototype_camera_idle (r : Request) :
  Prototype_idleWithoutGlobe (Prototype.camera r)
    (fun s => snd (Prototype.cameraCall r s)).
Proof.
  intros s Hg. unfold Prototype.camera, Prototype.cameraCall.
  rewrite Hg. split; reflexivity.
Qed.

Lemma Declarative_step_globeRef (e : Declarative.Event) (s : Declarative.State) :
  Declarative.globeRef s = None ->
  Declarative.globeRef (Declarative.step e s) = None.
Proof.
  intros H. destruct e; cbn [Declarative.step]; try exact H.
  - destruct (Declarative.showIntro s); exact H.
  - destruct (String.eqb _ _); exact H.
  - unfold Declarative.zoomIn, Declarative.camera, Declarative.cameraCall.
    rewrite H. exact H.
  - unfold Declarative.zoomOut, Declarative.camera, Declarative.cameraCall.
    rewrite H. exact H.
  - unfold Declarative.resetCompass, Declarative.camera, Declarative.cameraCall.
    rewrite H. exact H.
Qed.

Lemma Declarative_run_globeRef (es : list Declarative.Event) (s : Declarative.State) :
  Declarative.globeRef s = None ->
  Declarative.globeRef (Declarative.run es s) = None.
Proof.
  revert s. induction es as [| e es IH]; intros s H; [exact H |].
  apply IH, Declarative_step_globeRef, H.
Qed.

(** C5: in App.jsx, part_005 and part_004 each of [zoomIn], [zoomOut] and
    [resetCompass] leaves the component state ([showIntro], [sliderIdx],
    [base] or [currentLayer]) and every layer and its visibility as they
    were, and does nothing and returns while there is no globe.  On a globe
    [resetCompass] has the camera carry out one [flyLonLat] to the file's
    view and returns.  On a globe [zoomIn] and [zoomOut] do not reach the
    camera: it has no method of these names, the call ends in a TypeError
    and the state, the camera's record included, stays as it was.  In
    part_005 the ref the handlers read holds no globe after any run of
    events, so there each of the three handlers does nothing. *)
Theorem camera_handlers_keep_the_state_and_zoom_throws :
  ((Imperative_keepsState Imperative.zoomIn /\
    Imperative_keepsState Imperative.zoomOut /\
    Imperative_keepsState Imperative.resetCompass) /\
   (Imperative_idleWithoutGlobe Imperative.zoomIn Imperative.zoomIn_ends /\
    Imperative_idleWithoutGlobe Imperative.zoomOut Imperative.zoomOut_ends /\
    Imperative_idleWithoutGlobe Imperative.resetCompass Imperative.resetCompass_ends) /\
   Imperative_sendsCamera (flyLonLat Imperative.US_VIEW)
     Imperative.resetCompass Imperative.resetCompass_ends /\
   Imperative_throwsOnGlobe Imperative.zoomIn Imperative.zoomIn_ends /\
   Imperative_throwsOnGlobe Imperative.zoomOut Imperative.zoomOut_ends) /\
  ((Declarative_keepsState Declarative.zoomIn /\
    Declarative_keepsState Declarative.zoomOut /\
    Declarative_keepsState Declarative.resetCompass) /\
   (Declarative_idleWithoutGlobe Declarative.zoomIn Declarative.zoomIn_ends /\
    Declarative_idleWithoutGlobe Declarative.zoomOut Declarative.zoomOut_ends /\
    Declarative_idleWithoutGlobe Declarative.resetCompass Declarative.resetCompass_ends) /\
   Declarative_sendsCamera (flyLonLat Declarative.START_VIEW)
     Declarative.resetCompass Declarative.resetCompass_ends /\
   Declarative_throwsOnGlobe Declarative.zoomIn Declarative.zoomIn_ends /\
   Declarative_throwsOnGlobe Declarative.zoomOut Declarative.zoomOut_ends /\
   (forall es, Declarative.globeRef (Declarative.run es Declarative.initial) = None)) /\
  ((Prototype_keepsState Prototype.zoomIn /\
    Prototype_keepsState Prototype.zoomOut /\
    Prototype_keepsState Prototype.resetCompass) /\
   (Prototype_idleWithoutGlobe Prototype.zoomIn Prototype.zoomIn_ends /\
    Prototype_idleWithoutGlobe Prototype.zoomOut Prototype.zoomOut_ends /\
    Prototype_idleWithoutGlobe Prototype.resetCompass Prototype.resetCompass_ends) /\
   Prototype_sendsCamera (flyLonLat Prototype.ORIGIN)
     Prototype.resetCompass Prototype.resetCompass_ends /\
   Prototype_throwsOnGlobe Prototype.zoomIn Prototype.zoomIn_ends /\
   Prototype_throwsOnGlobe Prototype.zoomOut Prototype.zoomOut_ends).
Proof.
  split; [| split].
  - split; [| split; [| split; [| split]]].
    + repeat split; apply Imperative_camera_keepsState.
    + split; [| split]; apply Imperative_camera_idle.
    + intros s g Hg.
      unfold Imperative.resetCompass, Imperative.resetCompass_ends,
        Imperative.camera, Imperative.cameraCall.
      rewrite Hg. split; reflexivity.
    + intros s [g Hg].
      unfold Imperative.zoomIn, Imperative.zoomIn_ends,
        Imperative.camera, Imperative.cameraCall.
      rewrite Hg. split; reflexivity.
    + intros s [g Hg].
      unfold Imperative.zoomOut, Imperative.zoomOut_ends,
        Imperative.camera, Imperative.cameraCall.
      rewrite Hg. split; reflexivity.
  - split; [| split; [| split; [| split; [| split]]]].
    + repeat split; apply Declarative_camera_keepsState.
    + split; [| split]; apply Declarative_camera_idle.
    + intros s g Hg.
      unfold Declarative.resetCompass, Declarative.resetCompass_ends,
        Declarative.camera, Declarative.cameraCall.
      rewrite Hg. split; reflexivity.
    + intros s [g Hg].
      unfold Declarative.zoomIn, Declarative.zoomIn_ends,
        Declarative.camera, Declarative.cameraCall.
      rewrite Hg. split; reflexivity.
    + intros s [g Hg].
      unfold Declarative.zoomOut, Declarative.zoomOut_ends,
        Declarative.camera, Declarative.cameraCall.
      rewrite Hg. split; reflexivity.
    + intros es. apply Declarative_run_globeRef. reflexivity.
  - split; [| split; [| split; [| split]]].
    + repeat split; apply Prototype_camera_keepsState.
    + split; [| split]; apply Prototype_camera_idle.
    + intros s g Hg.
      unfold Prototype.resetCompass, Prototype.resetCompass_ends,
        Prototype.camera, Prototype.cameraCall.
      rewrite Hg. split; reflexivity.
    + intros s [g Hg].
      unfold Prototype.zoomIn, Prototype.zoomIn_ends,
        Prototype.camera, Prototype.cameraCall.
      rewrite Hg. split; reflexivity.
    + intros s [g Hg].
      unfold Prototype.zoomOut, Prototype.zoomOut_ends,
        Prototype.camera, Prototype.cameraCall.
      rewrite Hg. split; reflexivity.
Qed.

End Camera.

(** ** Switching the base layer *)

Section BaseLayer.
Import OG.

Lemma wellFormed_initialized (s : Imperative.State) :
  wellFormed s -> Imperative.initialized s.
Proof.
  intros (g & osm & sat & lo & ls & Hg & _ & Ho & Hs & Hne & Hlo & _ & Hls & _).
  unfold Imperative.initialized. rewrite Hg, Ho, Hs, Hlo, Hls. eauto.
Qed.

Lemma initialized_ready (s : Imperative.State) :
  Imperative.initialized s -> ready s.
Proof.
  unfold Imperative.initialized, ready.
  destruct (Imperative.globus s), (Imperative.osmRef s), (Imperative.satRef s);
    intros H; try contradiction; eauto.
Qed.

Lemma mounted_wellFormed : wellFormed Imperative.mounted.
Proof.
  exists {| layers := [0%nat; 1%nat]; cameraCalls := [flyLonLat Imperative.US_VIEW] |},
    0%nat, 1%nat, (new_Layer OpenStreetMap), (setVisibility false (new_Layer Bing)).
  repeat split; try reflexivity. discriminate.
Qed.

Lemma switchLayer_not_ready (name : string) (s : Imperative.State) :
  Imperative.globus s = None \/ Imperative.osmRef s = None \/ Imperative.satRef s = None ->
  Imperative.switchLayer name s = s.
Proof.
  unfold Imperative.switchLayer.
  intros [H | [H | H]]; rewrite H;
    destruct (Imperative.globus s); try destruct (Imperative.osmRef s); reflexivity.
Qed.

Lemma switchLayer_other_name (name : string) (s : Imperative.State) :
  ready s -> name <> "OSM" -> name <> "SAT" ->
  Imperative.switchLayer name s = Imperative.setBase name s.
Proof.
  intros ([g Hg] & [o Ho] & [t Ht]) H1 H2.
  unfold Imperative.switchLayer. rewrite Hg, Ho, Ht.
  apply String.eqb_neq in H1, H2. rewrite H1, H2.
  destruct s; reflexivity.
Qed.

(** C8: in the imperative version, [switchLayer] with a name other than
    "OSM" and "SAT" leaves the visibility of both base layers as it was and
    still sets [base] to that name; and until the globe and both layers
    exist, [switchLayer] leaves the whole state, [base] included, unchanged
    for every name. *)
Theorem switchLayer_other_name_or_too_early :
  (forall s name, ready s -> name <> "OSM" -> name <> "SAT" ->
     Imperative.base (Imperative.switchLayer name s) = name /\
     Imperative.store (Imperative.switchLayer name s) = Imperative.store s /\
     Imperative.osmVisible (Imperative.switchLayer name s) = Imperative.osmVisible s /\
     Imperative.satVisible (Imperative.switchLayer name s) = Imperative.satVisible s /\
     Imperative.shown (Imperative.switchLayer name s) = Imperative.shown s /\
     Imperative.switchLayer name s = Imperative.setBase name s) /\
  (forall s name,
     Imperative.globus s = None \/ Imperative.osmRef s = None \/
     Imperative.satRef s = None ->
     Imperative.switchLayer name s = s /\
     Imperative.base (Imperative.switchLayer name s) = Imperative.base s).
Proof.
  split.
  - intros s name Hr H1 H2.
    rewrite (switchLayer_other_name name s Hr H1 H2).
    repeat split; reflexivity.
  - intros s name H. rewrite (switchLayer_not_ready name s H).
    split; reflexivity.
Qed.

Lemma switchLayer_other_name_or_too_early_witness :
  (Imperative.base (Imperative.switchLayer "TERRAIN" Imperative.mounted) = "TERRAIN" /\
   Imperative.osmVisible (Imperative.switchLayer "TERRAIN" Imperative.mounted) = Some true /\
   Imperative.satVisible (Imperative.switchLayer "TERRAIN" Imperative.mounted) = Some false) /\
  Imperative.switchLayer "SAT" Imperative.initial = Imperative.initial.
Proof.
  pose proof switchLayer_other_name_or_too_early as [Hother Hearly].
  split.
  - destruct (Hother Imperative.mounted "TERRAIN"
                (initialized_ready _ (wellFormed_initialized _ mounted_wellFormed)))
      as (Hb & _ & Ho & Hs & _); [discriminate | discriminate |].
    rewrite Hb, Ho, Hs. repeat split; reflexivity.
  - apply (Hearly Imperative.initial "SAT"). left. reflexivity.
Defined.

End BaseLayer.

Section NamedProvider.
Import JS OG.

Lemma buttonName_cases (b : BaseButton) : buttonName b = "OSM" \/ buttonName b = "SAT".
Proof. destruct b; [left | right]; reflexivity. Qed.

Lemma Imperative_switchLayer_visibility (s : Imperative.State) (name : string) :
  Imperative.initialized s -> name = "OSM" \/ name = "SAT" ->
  Imperative.osmVisible (Imperative.switchLayer name s) = Some (String.eqb name "OSM") /\
  Imperative.satVisible (Imperative.switchLayer name s) = Some (String.eqb name "SAT") /\
  Imperative.base (Imperative.switchLayer name s) = name.
Proof.
  unfold Imperative.initialized, Imperative.switchLayer,
    Imperative.osmVisible, Imperative.satVisible, Imperative.visibleAt.
  destruct (Imperative.globus s) as [g |]; [| contradiction].
  destruct (Imperative.osmRef s) as [osm |] eqn:Ho; [| contradiction].
  destruct (Imperative.satRef s) as [sat |] eqn:Hs; [| contradiction].
  intros (Hne & [lo Hlo] & [ls Hls]) [-> | ->]; cbn; rewrite Ho, Hs.
  - rewrite lookup_alter_ne, lookup_alter_eq, Hlo by congruence.
    rewrite lookup_alter_eq, lookup_alter_ne, Hls by congruence.
    repeat split; reflexivity.
  - rewrite lookup_alter_ne, lookup_alter_eq, Hlo by congruence.
    rewrite lookup_alter_eq, lookup_alter_ne, Hls by congruence.
    repeat split; reflexivity.
Qed.

Lemma Imperative_switchLayer_shown (s : Imperative.State) (name : string) :
  wellFormed s -> name = "OSM" \/ name = "SAT" ->
  wellFormed (Imperative.switchLayer name s) /\
  Imperative.shown (Imperative.switchLayer name s) =
    [if String.eqb name "OSM" then OpenStreetMap else Bing].
Proof.
  intros (g & osm & sat & lo & ls & Hg & Hl & Ho & Hs & Hne & Hlo & Hpo & Hls & Hps) Hn.
  unfold Imperative.switchLayer, Imperative.shown. rewrite Hg, Ho, Hs.
  destruct Hn as [-> | ->]; cbn; rewrite Hg, Hl.
  - split.
    + exists g, osm, sat, (setVisibility true lo), (setVisibility false ls).
      cbn.
      rewrite lookup_alter_ne, lookup_alter_eq, Hlo by congruence.
      rewrite lookup_alter_eq, lookup_alter_ne, Hls by congruence.
      repeat split; assumption.
    + unfold visibleProviders. cbn [omap list_omap].
      rewrite lookup_alter_ne, lookup_alter_eq, Hlo by congruence.
      rewrite lookup_alter_eq, lookup_alter_ne, Hls by congruence.
      cbn. rewrite Hpo. reflexivity.
  - split.
    + exists g, osm, sat, (setVisibility false lo), (setVisibility true ls).
      cbn.
      rewrite lookup_alter_ne, lookup_alter_eq, Hlo by congruence.
      rewrite lookup_alter_eq, lookup_alter_ne, Hls by congruence.
      repeat split; assumption.
    + unfold visibleProviders. cbn [omap list_omap].
      rewrite lookup_alter_ne, lookup_alter_eq, Hlo by congruence.
      rewrite lookup_alter_eq, lookup_alter_ne, Hls by congruence.
      cbn. rewrite Hps. reflexivity.
Qed.

Lemma Prototype_switchLayer_throws (name : string) (s : Prototype.State) :
  is_Some (Prototype.globus s) ->
  Prototype.switchLayer name s = s /\
  Prototype.switchLayer_ends name s = Throw TypeError.
Proof.
  intros [g Hg].
  unfold Prototype.switchLayer, Prototype.switchLayer_ends, Prototype.switchLayerCall.
  rewrite Hg. split; reflexivity.
Qed.

Lemma Prototype_switchLayer_idle (name : string) (s : Prototype.State) :
  Prototype.globus s = None ->
  Prototype.switchLayer name s = s /\
  Prototype.switchLayer_ends name s = Return tt.
Proof.
  intros Hg.
  unfold Prototype.switchLayer, Prototype.switchLayer_ends, Prototype.switchLayerCall.
  rewrite Hg. split; reflexivity.
Qed.

Lemma Prototype_switchLayer_same (name : string) (s : Prototype.State) :
  Prototype.switchLayer name s = s.
Proof.
  destruct (Prototype.globus s) as [g |] eqn:Hg.
  - apply Prototype_switchLayer_throws. rewrite Hg. eauto.
  - apply Prototype_switchLayer_idle, Hg.
Qed.

Lemma Prototype_step_store (e : Prototype.Event) (s : Prototype.State) :
  Prototype.store (Prototype.step e s) = Prototype.store s \/
  exists l, Prototype.store s !! l = None /\
    Prototype.store (Prototype.step e s) =
      <[l := new_Layer OpenStreetMap]> (Prototype.store s).
Proof.
  destruct e; cbn [Prototype.step];
    unfold Prototype.zoomIn, Prototype.zoomOut, Prototype.resetCompass.
  - unfold Prototype.effect. destruct (Prototype.globeRef s); [| left; reflexivity].
    right. exists (fresh (dom (Prototype.store s))). split; [| reflexivity].
    apply not_elem_of_dom, is_fresh.
  - left. destruct (String.eqb _ _); [reflexivity |].
    rewrite Prototype_switchLayer_same. reflexivity.
  - left. apply Prototype_camera_keepsState.
  - left. apply Prototype_camera_keepsState.
  - left. apply Prototype_camera_keepsState.
  - left. reflexivity.
Qed.

Lemma Prototype_step_onlyOpenStreetMap (e : Prototype.Event) (s : Prototype.State) :
  onlyOpenStreetMap s -> onlyOpenStreetMap (Prototype.step e s).
Proof.
  intros H l ly.
  destruct (Prototype_step_store e s) as [-> | (l' & _ & ->)]; [apply H |].
  destruct (decide (l' = l)) as [-> | Hne].
  - rewrite lookup_insert_eq. intros [= <-]. reflexivity.
  - rewrite lookup_insert_ne by exact Hne. apply H.
Qed.

Lemma Prototype_run_onlyOpenStreetMap (es : list Prototype.Event) (s : Prototype.State) :
  onlyOpenStreetMap s -> onlyOpenStreetMap (Prototype.run es s).
Proof.
  revert s. induction es as [| e es IH]; intros s H; [exact H |].
  apply IH, Prototype_step_onlyOpenStreetMap, H.
Qed.

Lemma Prototype_initial_onlyOpenStreetMap : onlyOpenStreetMap Prototype.initial.
Proof. intros l ly H. cbn in H. rewrite lookup_empty in H. discriminate H. Qed.

Lemma Declarative_ClickBase_layersProp (b : BaseButton) (s : Declarative.State) :
  Declarative.layersProp (Declarative.step (Declarative.ClickBase (buttonName b)) s) =
    Declarative.baseLayers (buttonName b).
Proof.
  cbn [Declarative.step].
  destruct (String.eqb (Declarative.base s) (buttonName b)) eqn:E; [| reflexivity].
  apply String.eqb_eq in E. unfold Declarative.layersProp. rewrite E. reflexivity.
Qed.




End NamedProvider.

(** ** The versions side by side *)

Section Versions.
Import JS Timeline OG.

Lemma Declarative_layersProp_by_base (s : Declarative.State) :
  provider <$> Declarative.layersProp s =
    [if String.eqb (Declarative.base s) "OSM"
     then OpenStreetMap else XYZ "ESRI World Imagery"].
Proof.
  unfold Declarative.layersProp, Declarative.baseLayers.
  destruct (String.eqb (Declarative.base s) "OSM"); reflexivity.
Qed.

Lemma wellFormed_camera (r : Request) (s : Imperative.State) :
  wellFormed s -> wellFormed (Imperative.camera r s).
Proof.
  intros Hwf.
  destruct (Imperative_camera_cases r s) as [-> | (g' & v & _ & Hg' & ->)];
    [exact Hwf |].
  destruct Hwf
    as (g & osm & sat & lo & ls & Hg & Hl & Ho & Hs & Hne & Hlo & Hpo & Hls & Hps).
  assert (g' = g) as -> by congruence.
  exists (callCamera (flyLonLat v) g), osm, sat, lo, ls. cbn.
  repeat split; assumption.
Qed.

Lemma wellFormed_setSliderIdx (v : Z) (s : Imperative.State) :
  wellFormed s -> wellFormed (Imperative.setSliderIdx v s).
Proof.
  intros (g & osm & sat & lo & ls & H). exists g, osm, sat, lo, ls. exact H.
Qed.

Lemma agree_camera (ri rd : Request) si sd :
  agree si sd ->
  agree (Imperative.camera ri si) (Declarative.camera rd sd).
Proof.
  intros (Hidx & Hb & Hcases & Hwf & Hsh).
  destruct (Imperative_camera_keepsState ri si) as (_ & Hi1 & Hi2 & _ & _ & _ & Hi3).
  destruct (Declarative_camera_keepsState rd sd) as (_ & Hd1 & Hd2 & _).
  unfold agree. rewrite Hi1, Hi2, Hi3, Hd1, Hd2.
  repeat split; try assumption.
  apply wellFormed_camera, Hwf.
Qed.

Lemma agree_step (o : UserOp) si sd :
  agree si sd ->
  agree (Imperative.step (inImperative o) si)
        (Declarative.step (inDeclarative o) sd).
Proof.
  intros Ha. destruct o as [v | b | | |]; cbn.
  - destruct Ha as (Hidx & Hb & Hcases & Hwf & Hsh).
    repeat split; try assumption; apply wellFormed_setSliderIdx, Hwf.
  - destruct Ha as (Hidx & Hb & Hcases & Hwf & Hsh).
    rewrite <- Hb.
    destruct (String.eqb (Imperative.base si) (buttonName b)) eqn:E.
    + repeat split; assumption.
    + destruct (Imperative_switchLayer_visibility si (buttonName b)
                  (wellFormed_initialized si Hwf) (buttonName_cases b))
        as (_ & _ & Hbase).
      destruct (Imperative_switchLayer_shown si (buttonName b) Hwf
                  (buttonName_cases b)) as (Hwf' & Hsh').
      assert (Hidx' : Imperative.sliderIdx (Imperative.switchLayer (buttonName b) si)
                      = Imperative.sliderIdx si).
      { unfold Imperative.switchLayer.
        destruct (Imperative.globus si), (Imperative.osmRef si),
          (Imperative.satRef si); reflexivity. }
      unfold agree. rewrite Hbase, Hidx', Hsh'.
      destruct b; cbn [buttonName]; repeat split; auto.
  - apply agree_camera, Ha.
  - apply agree_camera, Ha.
  - apply agree_camera, Ha.
Qed.

Lemma agree_run (ops : list UserOp) si sd :
  agree si sd ->
  agree (Imperative.run (map inImperative ops) si)
        (Declarative.run (map inDeclarative ops) sd).
Proof.
  revert si sd. induction ops as [| o ops IH]; intros si sd Ha; [exact Ha |].
  cbn [map]. apply (IH _ _ (agree_step o si sd Ha)).
Qed.

Lemma agree_mounted : agree Imperative.mounted Declarative.initial.
Proof.
  repeat split; try reflexivity.
  - left. reflexivity.
  - apply mounted_wellFormed.
Qed.

Lemma Prototype_step_globus (e : Prototype.Event) (s : Prototype.State) :
  is_Some (Prototype.globus s) -> is_Some (Prototype.globus (Prototype.step e s)).
Proof.
  intros Hg. destruct e; cbn [Prototype.step];
    unfold Prototype.zoomIn, Prototype.zoomOut, Prototype.resetCompass.
  - unfold Prototype.effect. destruct (Prototype.globeRef s); [cbn; eauto | exact Hg].
  - destruct (String.eqb _ _); [exact Hg |].
    rewrite Prototype_switchLayer_same. exact Hg.
  - destruct (Prototype_camera_cases ask_zoomIn s) as [-> | (g & v & _ & _ & ->)];
      [exact Hg | cbn; eauto].
  - destruct (Prototype_camera_cases ask_zoomOut s) as [-> | (g & v & _ & _ & ->)];
      [exact Hg | cbn; eauto].
  - destruct (Prototype_camera_cases (ask_flyLonLat Prototype.ORIGIN) s)
      as [-> | (g & v & _ & _ & ->)]; [exact Hg | cbn; eauto].
  - exact Hg.
Qed.

Lemma Prototype_run_globus (es : list Prototype.Event) (s : Prototype.State) :
  is_Some (Prototype.globus s) -> is_Some (Prototype.globus (Prototype.run es s)).
Proof.
  revert s. induction es as [| e es IH]; intros s H; [exact H |].
  apply IH, Prototype_step_globus, H.
Qed.

(** C3, as the code has it.  After the same user operations on the mounted
    components, App.jsx and part_005 hold the same slider index, hence the
    same selected date, and the same base name, "OSM" or "SAT".  For "OSM"
    App.jsx shows its OpenStreetMap layer alone and part_005 hands the
    wrapper its OpenStreetMap layer alone; for "SAT" App.jsx shows its Bing
    layer alone and part_005 hands the wrapper its ESRI World Imagery
    layer.  part_004 has no timeline and no second provider: every layer
    it has made is an OpenStreetMap layer.  The compass of App.jsx sends
    the camera to [US_VIEW], that of part_004 to longitude 0, latitude 0,
    and part_005 names a third view, [START_VIEW]. *)
Theorem versions_agree_on_timeline_and_base (ops : list UserOp) (now : Date) :
  selectedDate now (Imperative.sliderIdx (runImperative ops)) =
    selectedDate now (Declarative.sliderIdx (runDeclarative ops)) /\
  Imperative.base (runImperative ops) = Declarative.base (runDeclarative ops) /\
  (Imperative.base (runImperative ops) = "OSM" \/
   Imperative.base (runImperative ops) = "SAT") /\
  Imperative.shown (runImperative ops) =
    [if String.eqb (Imperative.base (runImperative ops)) "OSM"
     then OpenStreetMap else Bing] /\
  provider <$> Declarative.layersProp (runDeclarative ops) =
    [if String.eqb (Imperative.base (runImperative ops)) "OSM"
     then OpenStreetMap else XYZ "ESRI World Imagery"] /\
  onlyOpenStreetMap (runPrototype ops) /\
  Imperative.cameraTarget (Imperative.resetCompass (runImperative ops)) =
    Some Imperative.US_VIEW /\
  Prototype.cameraTarget (Prototype.resetCompass (runPrototype ops)) =
    Some Prototype.ORIGIN /\
  ~ (lon Imperative.US_VIEW == lon Prototype.ORIGIN)%Q /\
  ~ (lon Imperative.US_VIEW == lon Declarative.START_VIEW)%Q /\
  ~ (lon Declarative.START_VIEW == lon Prototype.ORIGIN)%Q.
Proof.
  destruct (agree_run ops _ _ agree_mounted) as (Hidx & Hb & Hcases & Hwf & Hsh).
  fold (runImperative ops) in *. fold (runDeclarative ops) in *.
  rewrite Hidx. repeat split; try assumption.
  - rewrite Hb. apply Declarative_layersProp_by_base.
  - apply Prototype_run_onlyOpenStreetMap.
    apply (Prototype_step_onlyOpenStreetMap Prototype.RunEffect (Prototype.attach Prototype.initial)).
    apply Prototype_initial_onlyOpenStreetMap.
  - destruct Hwf as (g & osm & sat & lo & ls & Hg & _).
    unfold Imperative.cameraTarget, Imperative.resetCompass, Imperative.camera,
      Imperative.cameraCall.
    rewrite Hg. cbn. apply lastView_snoc.
  - assert (Hg : is_Some (Prototype.globus (runPrototype ops))).
    { apply Prototype_run_globus. eexists. reflexivity. }
    destruct Hg as [g Hg].
    unfold Prototype.cameraTarget, Prototype.resetCompass, Prototype.camera,
      Prototype.cameraCall.
    rewrite Hg. cbn. apply lastView_snoc.
  - intros H. vm_compute in H. discriminate H.
  - intros H. vm_compute in H. discriminate H.
  - intros H. vm_compute in H. discriminate H.
Qed.

(** C3 fails as it is stated.  After one press on the compass the camera of
    App.jsx and that of part_004 have been sent to two different places,
    and part_005 names a third view; after one press on SAT the layer
    App.jsx shows is a Bing layer while the layer part_005 hands to its
    globe is an ESRI World Imagery layer. *)
Lemma versions_differ_on_camera_and_satellite :
  Imperative.cameraTarget (runImperative [PressCompass]) = Some Imperative.US_VIEW /\
  Prototype.cameraTarget (runPrototype [PressCompass]) = Some Prototype.ORIGIN /\
  ~ (lon Imperative.US_VIEW == lon Prototype.ORIGIN)%Q /\
  ~ (lon Imperative.US_VIEW == lon Declarative.START_VIEW)%Q /\
  Imperative.cameraTarget (runImperative [PressCompass]) <>
    Prototype.cameraTarget (runPrototype [PressCompass]) /\
  Imperative.base (runImperative [PressBase SAT]) = "SAT" /\
  Declarative.base (runDeclarative [PressBase SAT]) = "SAT" /\
  Imperative.shown (runImperative [PressBase SAT]) = [Bing] /\
  provider <$> Declarative.layersProp (runDeclarative [PressBase SAT]) =
    [XYZ "ESRI World Imagery"].
Proof.
  repeat split; try reflexivity; try (intros H; vm_compute in H; discriminate H).
Qed.

End Versions.

(** * Further properties of the code *)

(** ** The timeline beyond the slider's marks *)

Section TimelineMore.
Import JS Timeline.

Lemma nowTime_same_hour (tza clock clock' : Z) :
  nowTime tza clock <= clock' < nowTime tza clock + msPerHour ->
  nowTime tza clock' = nowTime tza clock.
Proof.
  unfold nowTime, msPerHour. intros H.
  pose proof (Z.div_mod (clock + tza) 3600000 ltac:(lia)) as E1.
  pose proof (Z.div_mod (clock' + tza) 3600000 ltac:(lia)) as E2.
  pose proof (Z.mod_pos_bound (clock + tza) 3600000 ltac:(lia)) as B1.
  pose proof (Z.mod_pos_bound (clock' + tza) 3600000 ltac:(lia)) as B2.
  generalize dependent ((clock + tza) `div` 3600000).
  generalize dependent ((clock' + tza) `div` 3600000).
  generalize dependent ((clock + tza) `mod` 3600000).
  generalize dependent ((clock' + tza) `mod` 3600000).
  intros r' B2 r H B1 q' E2 q E1.
  assert (q' = q) by lia.
  lia.
Qed.

Lemma now_value_when_valid (tza clock : Z) :
  - MAX_TIME <= nowTime tza clock -> clock <= MAX_TIME ->
  now tza clock = ValidDate (nowTime tza clock).
Proof.
  intros Hlo Hhi. unfold now, Date_now.
  pose proof (nowTime_bounds tza clock) as Hb.
  rewrite TimeClip_in_range by lia.
  unfold setMinutes. rewrite MakeDate_hour_floor.
  unfold UTC, LocalTime.
  replace (clock + tza - (clock + tza) mod msPerHour - tza)
    with (nowTime tza clock) by (unfold nowTime; lia).
  apply TimeClip_in_range. lia.
Qed.

(** X1: for a zone whose offsets stay within a day of UTC and a clock
    reading at least three days inside the range of time values, [now] is
    the instant the zone assigns to the top of the local hour the reading
    lies in.  Two such readings whose local times lie in the same hour give
    the same [now].  When the zone reads that top of the hour with the
    offset in force at the reading, [now] is at most the reading and less
    than an hour before it; when it shows that local time at [now], [now]
    has the local day and hour of the reading.  In a zone that keeps one
    offset both hold, and any reading taken from [now] on and less than an
    hour after it gives the same [now].  Through the hour that comes twice
    at the end of daylight time [now] can lie more than an hour back: in
    America/Chicago at 2023-11-05T07:30:00Z it is 06:00:00Z. *)
Theorem now_is_start_of_current_hour (z : Zone) (clock : Z) :
  boundedZone z -> clockWellInRange clock ->
  (exists t0,
     nowIn z clock = ValidDate t0 /\
     t0 = UTCIn z (hourStart (LocalTimeIn z clock)) /\
     (forall clock',
        clockWellInRange clock' ->
        hourStart (LocalTimeIn z clock') = hourStart (LocalTimeIn z clock) ->
        nowIn z clock' = nowIn z clock) /\
     (offsetOfLocal z (hourStart (LocalTimeIn z clock)) = offsetAt z clock ->
      t0 <= clock < t0 + 3600000) /\
     (LocalTimeIn z t0 = hourStart (LocalTimeIn z clock) ->
      Day (LocalTimeIn z t0) = Day (LocalTimeIn z clock) /\
      HourFromTime (LocalTimeIn z t0) = HourFromTime (LocalTimeIn z clock))) /\
  (forall tza, exists t0,
     now tza clock = ValidDate t0 /\
     t0 <= clock < t0 + 3600000 /\
     Day (LocalTime tza t0) = Day (LocalTime tza clock) /\
     HourFromTime (LocalTime tza t0) = HourFromTime (LocalTime tza clock) /\
     (forall clock', t0 <= clock' < t0 + 3600000 -> now tza clock' = now tza clock)) /\
  (nowIn chicago2023 repeatedHourClock = ValidDate (repeatedHourClock - 5400000)).
Proof.
  intros Hz Hc. split; [| split].
  - exists (UTCIn z (hourStart (LocalTimeIn z clock))).
    destruct (nowIn_value z clock Hz Hc) as (Hnow & _).
    split; [exact Hnow |]. split; [reflexivity |]. split; [| split].
    + intros clock' Hc' Hsame.
      destruct (nowIn_value z clock' Hz Hc') as (Hnow' & _).
      rewrite Hnow, Hnow', Hsame. reflexivity.
    + intros Hoff.
      pose proof (hourStart_bounds (LocalTimeIn z clock)) as Hb.
      unfold UTCIn. rewrite Hoff. unfold LocalTimeIn, msPerHour in *. lia.
    + intros Hback. rewrite Hback.
      destruct (hourStart_fields (LocalTimeIn z clock)) as (Hd & Hh & _).
      split; assumption.
  - intros tza. exists (nowTime tza clock).
    pose proof (clockWellInRange_clockInRange clock Hc) as Hc0.
    pose proof (nowTime_bounds tza clock) as Hb.
    split; [exact (now_value tza clock Hc0) |].
    split; [unfold msPerHour in Hb; lia |].
    split; [| split].
    + unfold Day, LocalTime, nowTime, msPerDay, msPerHour.
      Z.div_mod_to_equations. lia.
    + unfold HourFromTime, LocalTime, nowTime, msPerHour.
      Z.div_mod_to_equations. lia.
    + intros clock' H.
      rewrite (now_value tza clock Hc0).
      pose proof (nowTime_same_hour tza clock clock' H) as Hsame.
      rewrite (now_value_when_valid tza clock').
      * f_equal. exact Hsame.
      * rewrite Hsame. unfold clockInRange, MAX_TIME, HOUR_MS, msPerHour in *. lia.
      * unfold clockInRange, MAX_TIME, HOUR_MS, msPerHour in *. lia.
  - reflexivity.
Qed.

Lemma now_is_start_of_current_hour_witness :
  boundedZone chicago2023 /\
  clockWellInRange sampleClock /\
  nowIn chicago2023 sampleClock = ValidDate 1699999200000 /\
  nowIn chicago2023 1700002799999 = nowIn chicago2023 sampleClock /\
  now CST sampleClock = ValidDate 1699999200000 /\
  now CST 1700002799999 = now CST sampleClock.
Proof.
  assert (Hc : clockWellInRange sampleClock).
  { unfold clockWellInRange, sampleClock, MAX_TIME, msPerDay. lia. }
  split; [exact chicago2023_bounded |]. split; [exact Hc |].
  destruct (now_is_start_of_current_hour chicago2023 sampleClock
              chicago2023_bounded Hc)
    as ((t0 & Hnow & Ht0 & Hsame & _) & Hfixed & _).
  assert (Hv : t0 = 1699999200000) by (rewrite Ht0; reflexivity).
  clear Ht0. subst t0. split; [exact Hnow |].
  split.
  - apply Hsame; [| reflexivity].
    unfold clockWellInRange, MAX_TIME, msPerDay. lia.
  - destruct (Hfixed CST) as (t1 & Hnow1 & _ & _ & _ & Hsame1).
    assert (Hv1 : t1 = 1699999200000).
    { assert (Hn : now CST sampleClock = ValidDate 1699999200000) by reflexivity.
      congruence. }
    subst t1. split; [exact Hnow1 |]. apply Hsame1. lia.
Defined.

(** X2: along the slider the selected dates strictly increase, two
    positions [i < j] being exactly [(j - i)] hours apart, and every one of
    them lies between [now] and [end], ends included. *)
Theorem selected_dates_increase_within_window (tza clock i j : Z) :
  clockInRange clock ->
  In i sliderPositions -> In j sliderPositions -> i < j ->
  exists t0 ti tj te,
    now tza clock = ValidDate t0 /\
    selectedDate (now tza clock) i = ValidDate ti /\
    selectedDate (now tza clock) j = ValidDate tj /\
    end_ (now tza clock) = ValidDate te /\
    ti < tj /\ tj - ti = (j - i) * 3600000 /\
    t0 <= ti /\ tj <= te.
Proof.
  intros Hc Hi Hj Hij.
  apply sliderPositions_range in Hi. apply sliderPositions_range in Hj.
  exists (nowTime tza clock), (nowTime tza clock + i * HOUR_MS),
    (nowTime tza clock + j * HOUR_MS), (nowTime tza clock + 24 * HOUR_MS).
  split; [exact (now_value tza clock Hc) |].
  split; [exact (selectedDate_value tza clock i Hc Hi) |].
  split; [exact (selectedDate_value tza clock j Hc Hj) |].
  split.
  { change (end_ (now tza clock)) with (selectedDate (now tza clock) 24).
    apply selectedDate_value; [exact Hc | lia]. }
  unfold HOUR_MS. lia.
Qed.

Lemma selected_dates_increase_within_window_witness :
  clockInRange sampleClock /\
  exists ti tj,
    selectedDate (now CST sampleClock) 3 = ValidDate ti /\
    selectedDate (now CST sampleClock) 24 = ValidDate tj /\
    tj - ti = (24 - 3) * 3600000.
Proof.
  split; [exact sampleClock_in_range |].
  assert (H3 : In 3 sliderPositions) by (apply sliderPositions_range; lia).
  assert (H24 : In 24 sliderPositions) by (apply sliderPositions_range; lia).
  destruct (selected_dates_increase_within_window CST sampleClock 3 24
              sampleClock_in_range H3 H24 ltac:(lia))
    as (t0 & ti & tj & te & _ & Hi & Hj & _ & _ & Hd & _).
  exists ti, tj. repeat split; assumption.
Defined.

(** X3: the selected date is a valid date exactly when [now] is valid and
    the sum [now + sliderIdx * HOUR_MS] stays within the range of time
    values; otherwise it is the invalid date, on which the label's two
    formatters throw a RangeError. *)
Theorem selectedDate_valid_exactly_in_range (d : Date) (i : Z) :
  ((exists t, selectedDate d i = ValidDate t) <->
   (exists t0, d = ValidDate t0 /\ - MAX_TIME <= t0 + i * HOUR_MS <= MAX_TIME)) /\
  (forall t, selectedDate d i = ValidDate t -> getTime d = Int (t - i * HOUR_MS)) /\
  (selectedDate d i = InvalidDate ->
   forall engine zone,
     fmtTZShort engine (selectedDate d i) = Throw RangeError /\
     fmtDateTime_minute zone (selectedDate d i) = Throw RangeError).
Proof.
  unfold selectedDate, new_Date. destruct d as [t0 |]; cbn [getTime add mul TimeClip].
  - destruct (Z.leb_spec (Z.abs (t0 + i * HOUR_MS)) MAX_TIME) as [Hle | Hgt].
    + split; [| split].
      * split; intros _; [exists t0; split; [reflexivity | lia] | eexists; reflexivity].
      * intros t [= <-]. f_equal. lia.
      * discriminate.
    + split; [| split].
      * split; [intros [t Ht]; discriminate Ht |].
        intros (t & [= <-] & Hr). lia.
      * discriminate.
      * intros _ engine zone. split; reflexivity.
  - split; [| split].
    + split; [intros [t Ht]; discriminate Ht | intros (t & Ht & _); discriminate Ht].
    + discriminate.
    + intros _ engine zone. split; reflexivity.
Qed.

Lemma selectedDate_valid_exactly_in_range_witness :
  selectedDate (ValidDate 8640000000000000) 1 = InvalidDate /\
  fmtTZShort sampleEngine (selectedDate (ValidDate 8640000000000000) 1) = Throw RangeError.
Proof.
  assert (H : selectedDate (ValidDate 8640000000000000) 1 = InvalidDate) by reflexivity.
  split; [exact H |].
  exact (proj1 (proj2 (proj2 (selectedDate_valid_exactly_in_range
                                 (ValidDate 8640000000000000) 1))
                 H sampleEngine (fun _ => CST))).
Defined.

End TimelineMore.

(** ** The overlay and the slider over whole runs *)

Section OverlayAndSlider.

Lemma Imperative_step_showIntro (e : Imperative.Event) (s : Imperative.State) :
  Imperative.showIntro (Imperative.step e s) =
    Imperative.showIntro s && negb (Imperative_dismisses e).
Proof.
  destruct e; cbn [Imperative.step Imperative_dismisses negb];
    unfold Imperative.zoomIn, Imperative.zoomOut, Imperative.resetCompass;
    rewrite ?Imperative_effect_showIntro, ?Imperative_camera_showIntro,
      ?andb_true_r, ?andb_false_r; try reflexivity.
  - destruct (Imperative.showIntro s) eqn:E; [reflexivity | cbn; exact E].
  - destruct (String.eqb _ _); [reflexivity |].
    apply Imperative_switchLayer_showIntro.
  - apply Imperative_switchLayer_showIntro.
Qed.

Lemma Declarative_step_showIntro (e : Declarative.Event) (s : Declarative.State) :
  Declarative.showIntro (Declarative.step e s) =
    Declarative.showIntro s && negb (Declarative_dismisses e).
Proof.
  destruct e; cbn [Declarative.step Declarative_dismisses negb];
    unfold Declarative.zoomIn, Declarative.zoomOut, Declarative.resetCompass;
    rewrite ?Declarative_camera_showIntro, ?andb_true_r, ?andb_false_r;
    try reflexivity.
  - destruct (Declarative.showIntro s) eqn:E; [reflexivity | cbn; exact E].
  - destruct (String.eqb _ _); reflexivity.
Qed.

Lemma InlineStyled_step_showIntro (e : InlineStyled.Event) (s : InlineStyled.State) :
  InlineStyled.showIntro (InlineStyled.step e s) =
    InlineStyled.showIntro s && negb (InlineStyled_dismisses e).
Proof.
  destruct e; cbn [InlineStyled.step InlineStyled_dismisses negb];
    rewrite ?andb_true_r, ?andb_false_r; try reflexivity.
  destruct (InlineStyled.showIntro s) eqn:E; [reflexivity | cbn; exact E].
Qed.

(** X4: the overlay is up after a run of events exactly when it was up
    before and the run holds no click on the overlay's background: nothing
    else dismisses it (not a click on the card, not the slider, a base
    button, the camera or the effect), and nothing brings it back.  This
    holds in App.jsx, part_005 and part_000. *)
Theorem overlay_up_until_background_click :
  (forall es s,
     Imperative.showIntro (Imperative.run es s) =
       Imperative.showIntro s && forallb (fun e => negb (Imperative_dismisses e)) es) /\
  (forall es s,
     Declarative.showIntro (Declarative.run es s) =
       Declarative.showIntro s && forallb (fun e => negb (Declarative_dismisses e)) es) /\
  (forall es s,
     InlineStyled.showIntro (InlineStyled.run es s) =
       InlineStyled.showIntro s && forallb (fun e => negb (InlineStyled_dismisses e)) es).
Proof.
  repeat split; intros es; induction es as [| e es IH]; intros s;
    cbn [forallb]; rewrite ?andb_true_r; try reflexivity.
  - change (Imperative.run (e :: es) s) with (Imperative.run es (Imperative.step e s)).
    rewrite IH, Imperative_step_showIntro, andb_assoc. reflexivity.
  - change (Declarative.run (e :: es) s) with (Declarative.run es (Declarative.step e s)).
    rewrite IH, Declarative_step_showIntro, andb_assoc. reflexivity.
  - change (InlineStyled.run (e :: es) s)
      with (InlineStyled.run es (InlineStyled.step e s)).
    rewrite IH, InlineStyled_step_showIntro, andb_assoc. reflexivity.
Qed.

Lemma Imperative_step_sliderIdx (e : Imperative.Event) (s : Imperative.State) :
  Imperative.sliderIdx (Imperative.step e s) =
    default (Imperative.sliderIdx s) (Imperative_slides e).
Proof.
  destruct e; cbn [Imperative.step Imperative_slides default]; try reflexivity.
  - unfold Imperative.effect. destruct (Imperative.globeRef s); reflexivity.
  - destruct (Imperative.showIntro s); reflexivity.
  - destruct (String.eqb _ _); [reflexivity |]. unfold Imperative.switchLayer.
    destruct (Imperative.globus s), (Imperative.osmRef s), (Imperative.satRef s);
      reflexivity.
  - unfold Imperative.switchLayer.
    destruct (Imperative.globus s), (Imperative.osmRef s), (Imperative.satRef s);
      reflexivity.
  - apply Imperative_camera_keepsState.
  - apply Imperative_camera_keepsState.
  - apply Imperative_camera_keepsState.
Qed.

Lemma Declarative_step_sliderIdx (e : Declarative.Event) (s : Declarative.State) :
  Declarative.sliderIdx (Declarative.step e s) =
    default (Declarative.sliderIdx s) (Declarative_slides e).
Proof.
  destruct e; cbn [Declarative.step Declarative_slides default]; try reflexivity.
  - destruct (Declarative.showIntro s); reflexivity.
  - destruct (String.eqb _ _); reflexivity.
  - apply Declarative_camera_keepsState.
  - apply Declarative_camera_keepsState.
  - apply Declarative_camera_keepsState.
Qed.

Lemma InlineStyled_step_sliderIdx (e : InlineStyled.Event) (s : InlineStyled.State) :
  InlineStyled.sliderIdx (InlineStyled.step e s) =
    default (InlineStyled.sliderIdx s) (InlineStyled_slides e).
Proof.
  destruct e; cbn [InlineStyled.step InlineStyled_slides default]; try reflexivity.
  destruct (InlineStyled.showIntro s); reflexivity.
Qed.

Lemma default_last_cons (x : Z) (o : option Z) (l : list Z) :
  default (default x o) (last l) = default x (last (option_list o ++ l)).
Proof.
  destruct o as [v |]; simpl; [| reflexivity].
  rewrite last_cons. destruct (last l); reflexivity.
Qed.

(** X5: after a run of events the slider index is the value of the last
    slider event of the run, and the index the run started from when the
    run has none: no other handler, and not the effect, writes it.  This
    holds in App.jsx, part_005 and part_000. *)
Theorem slider_index_is_last_slider_event :
  (forall es s,
     Imperative.sliderIdx (Imperative.run es s) =
       default (Imperative.sliderIdx s) (last (omap Imperative_slides es))) /\
  (forall es s,
     Declarative.sliderIdx (Declarative.run es s) =
       default (Declarative.sliderIdx s) (last (omap Declarative_slides es))) /\
  (forall es s,
     InlineStyled.sliderIdx (InlineStyled.run es s) =
       default (InlineStyled.sliderIdx s) (last (omap InlineStyled_slides es))).
Proof.
  repeat split; intros es; induction es as [| e es IH]; intros s; try reflexivity.
  - change (Imperative.run (e :: es) s) with (Imperative.run es (Imperative.step e s)).
    rewrite IH, Imperative_step_sliderIdx, default_last_cons.
    cbn [omap list_omap]. destruct (Imperative_slides e); reflexivity.
  - change (Declarative.run (e :: es) s) with (Declarative.run es (Declarative.step e s)).
    rewrite IH, Declarative_step_sliderIdx, default_last_cons.
    cbn [omap list_omap]. destruct (Declarative_slides e); reflexivity.
  - change (InlineStyled.run (e :: es) s)
      with (InlineStyled.run es (InlineStyled.step e s)).
    rewrite IH, InlineStyled_step_sliderIdx, default_last_cons.
    cbn [omap list_omap]. destruct (InlineStyled_slides e); reflexivity.
Qed.

End OverlayAndSlider.

(** ** The effect and the layers of App.jsx *)

Section EffectAndLayers.
Import OG.

Lemma fresh_lookup (h : gmap loc Layer) : h !! fresh (dom h) = None.
Proof. apply not_elem_of_dom, is_fresh. Qed.

Lemma fresh_after_insert (h : gmap loc Layer) (i : loc) (x : Layer) :
  fresh (dom (<[i := x]> h)) <> i /\ h !! fresh (dom (<[i := x]> h)) = None.
Proof.
  pose proof (fresh_lookup (<[i := x]> h)) as H.
  split.
  - intros E. rewrite E, lookup_insert_eq in H. discriminate H.
  - destruct (decide (i = fresh (dom (<[i := x]> h)))) as [E | E].
    + rewrite <- E, lookup_insert_eq in H. discriminate H.
    + rewrite lookup_insert_ne in H by exact E. exact H.
Qed.

Lemma effect_attached (s : Imperative.State) :
  Imperative.globeRef s = true ->
  exists osm sat,
    osm <> sat /\
    Imperative.store s !! osm = None /\ Imperative.store s !! sat = None /\
    Imperative.effect s =
      {| Imperative.showIntro := Imperative.showIntro s;
         Imperative.sliderIdx := Imperative.sliderIdx s;
         Imperative.globeRef := true;
         Imperative.globus :=
           Some {| layers := [osm; sat];
                   cameraCalls := [flyLonLat Imperative.US_VIEW] |};
         Imperative.base := Imperative.base s;
         Imperative.osmRef := Some osm;
         Imperative.satRef := Some sat;
         Imperative.store :=
           <[sat := setVisibility false (new_Layer Bing)]>
             (<[osm := new_Layer OpenStreetMap]> (Imperative.store s)) |}.
Proof.
  intros Ha.
  set (osm := fresh (dom (Imperative.store s))).
  set (h1 := <[osm := new_Layer OpenStreetMap]> (Imperative.store s)).
  set (sat := fresh (dom h1)).
  destruct (fresh_after_insert (Imperative.store s) osm (new_Layer OpenStreetMap))
    as [Hne Hsat].
  fold h1 in Hne, Hsat. fold sat in Hne, Hsat.
  exists osm, sat. split; [congruence |].
  split; [apply fresh_lookup |]. split; [exact Hsat |].
  unfold Imperative.effect, alloc. rewrite Ha. cbn [negb].
  fold osm. fold h1. fold sat. cbn [callCamera layers cameraCalls app].
  f_equal. apply map_eq. intros i.
  destruct (decide (sat = i)) as [<- | Hi].
  - rewrite lookup_alter_eq, !lookup_insert_eq. reflexivity.
  - rewrite lookup_alter_ne, !(lookup_insert_ne _ sat) by exact Hi. reflexivity.
Qed.

Lemma effect_oneVisible (s : Imperative.State) :
  Imperative.globeRef s = true -> oneVisible (Imperative.effect s).
Proof.
  intros Ha. destruct (effect_attached s Ha) as (osm & sat & Hne & _ & _ & ->).
  exists {| layers := [osm; sat]; cameraCalls := [flyLonLat Imperative.US_VIEW] |},
    osm, sat, (new_Layer OpenStreetMap), (setVisibility false (new_Layer Bing)).
  cbn. rewrite lookup_insert_ne, !lookup_insert_eq by congruence.
  repeat split; try reflexivity. exact Hne.
Qed.

Lemma oneVisible_wellFormed (s : Imperative.State) : oneVisible s -> wellFormed s.
Proof.
  intros (g & osm & sat & lo & ls & H1 & H2 & H3 & H4 & H5 & H6 & H7 & H8 & H9 & _).
  exists g, osm, sat, lo, ls. repeat split; assumption.
Qed.

Lemma oneVisible_shown (s : Imperative.State) :
  oneVisible s ->
  (Imperative.shown s = [OpenStreetMap] /\
   Imperative.osmVisible s = Some true /\ Imperative.satVisible s = Some false) \/
  (Imperative.shown s = [Bing] /\
   Imperative.osmVisible s = Some false /\ Imperative.satVisible s = Some true).
Proof.
  intros (g & osm & sat & lo & ls & Hg & Hl & Ho & Hs & Hne & Hlo & Hpo & Hls & Hps & Hv).
  unfold Imperative.shown, Imperative.osmVisible, Imperative.satVisible,
    Imperative.visibleAt, visibleProviders.
  rewrite Hg, Hl, Ho, Hs. cbn [omap list_omap]. rewrite Hlo, Hls. cbn [fmap option_fmap option_map].
  rewrite Hv, Hpo, Hps. destruct (visibility lo); [left | right]; repeat split; reflexivity.
Qed.

(** X6: whatever the state and the store it starts from, the effect of
    App.jsx, run with the container attached, makes two new layers that
    are distinct and were not in the store, leaves every older layer as it
    was, and ends with a globe holding exactly those two layers, the
    OpenStreetMap one visible and the Bing one hidden, the camera sent to
    [US_VIEW], and [showIntro], [sliderIdx] and [base] untouched.  Without
    the container it changes nothing. *)
Theorem effect_builds_the_globe (s : Imperative.State) :
  (Imperative.globeRef s = false -> Imperative.effect s = s) /\
  (Imperative.globeRef s = true ->
   wellFormed (Imperative.effect s) /\
   Imperative.shown (Imperative.effect s) = [OpenStreetMap] /\
   Imperative.osmVisible (Imperative.effect s) = Some true /\
   Imperative.satVisible (Imperative.effect s) = Some false /\
   Imperative.cameraTarget (Imperative.effect s) = Some Imperative.US_VIEW /\
   (forall l, is_Some (Imperative.store s !! l) ->
      Imperative.store (Imperative.effect s) !! l = Imperative.store s !! l /\
      Imperative.osmRef (Imperative.effect s) <> Some l /\
      Imperative.satRef (Imperative.effect s) <> Some l) /\
   Imperative.showIntro (Imperative.effect s) = Imperative.showIntro s /\
   Imperative.sliderIdx (Imperative.effect s) = Imperative.sliderIdx s /\
   Imperative.base (Imperative.effect s) = Imperative.base s).
Proof.
  split.
  - intros Ha. unfold Imperative.effect. rewrite Ha. reflexivity.
  - intros Ha. pose proof (effect_oneVisible s Ha) as Hone.
    split; [exact (oneVisible_wellFormed _ Hone) |].
    destruct (effect_attached s Ha) as (osm & sat & Hne & Hfo & Hfs & E).
    assert (Hvis : Imperative.osmVisible (Imperative.effect s) = Some true /\
                   Imperative.satVisible (Imperative.effect s) = Some false).
    { rewrite E. unfold Imperative.osmVisible, Imperative.satVisible,
        Imperative.visibleAt. cbn.
      rewrite lookup_insert_ne, !lookup_insert_eq by congruence.
      split; reflexivity. }
    destruct Hvis as [Hvo Hvs].
    split.
    { destruct (oneVisible_shown _ Hone) as [(Hsh & _) | (_ & Hf & _)];
        [exact Hsh | congruence]. }
    split; [exact Hvo |]. split; [exact Hvs |].
    rewrite E. cbn. repeat split; try reflexivity.
    + rewrite !lookup_insert_ne; [reflexivity | |];
        intros <-; destruct H as [x Hx]; congruence.
    + intros [= <-]. destruct H as [x Hx]. congruence.
    + intros [= <-]. destruct H as [x Hx]. congruence.
Qed.

Lemma effect_builds_the_globe_witness :
  Imperative.globeRef (Imperative.switchLayer "SAT" Imperative.mounted) = true /\
  Imperative.shown (Imperative.effect (Imperative.switchLayer "SAT" Imperative.mounted))
    = [OpenStreetMap] /\
  Imperative.effect Imperative.initial = Imperative.initial.
Proof.
  assert (Ha : Imperative.globeRef (Imperative.switchLayer "SAT" Imperative.mounted) = true)
    by reflexivity.
  split; [exact Ha |]. split.
  - exact (proj1 (proj2 (proj2 (effect_builds_the_globe _) Ha))).
  - apply (proj1 (effect_builds_the_globe Imperative.initial)). reflexivity.
Defined.

End EffectAndLayers.

Section LayerInvariants.
Import OG.

Lemma mounted_oneVisible : oneVisible Imperative.mounted.
Proof. apply effect_oneVisible. reflexivity. Qed.

Lemma switchLayer_oneVisible (name : string) (s : Imperative.State) :
  oneVisible s -> oneVisible (Imperative.switchLayer name s).
Proof.
  intros (g & osm & sat & lo & ls & Hg & Hl & Ho & Hs & Hne & Hlo & Hpo & Hls & Hps & Hv).
  unfold Imperative.switchLayer. rewrite Hg, Ho, Hs.
  destruct (String.eqb name "OSM"); [| destruct (String.eqb name "SAT")].
  - exists g, osm, sat, (setVisibility true lo), (setVisibility false ls). cbn.
    rewrite lookup_alter_ne, lookup_alter_eq, Hlo by congruence.
    rewrite lookup_alter_eq, lookup_alter_ne, Hls by congruence.
    repeat split; assumption.
  - exists g, osm, sat, (setVisibility false lo), (setVisibility true ls). cbn.
    rewrite lookup_alter_ne, lookup_alter_eq, Hlo by congruence.
    rewrite lookup_alter_eq, lookup_alter_ne, Hls by congruence.
    repeat split; assumption.
  - exists g, osm, sat, lo, ls. cbn. repeat split; assumption.
Qed.

Lemma camera_oneVisible (r : Request) (s : Imperative.State) :
  oneVisible s -> oneVisible (Imperative.camera r s).
Proof.
  intros Hv.
  destruct (Imperative_camera_cases r s) as [-> | (g' & v & _ & Hg' & ->)];
    [exact Hv |].
  destruct Hv as (g & osm & sat & lo & ls & Hg & H).
  assert (g' = g) as -> by congruence.
  exists (callCamera (flyLonLat v) g), osm, sat, lo, ls. cbn.
  split; [reflexivity | exact H].
Qed.

Lemma step_oneVisible (e : Imperative.Event) (s : Imperative.State) :
  oneVisible s -> oneVisible (Imperative.step e s).
Proof.
  intros H. destruct e; cbn [Imperative.step]; try exact H.
  - destruct (Imperative.globeRef s) eqn:Ha.
    + apply effect_oneVisible, Ha.
    + unfold Imperative.effect. rewrite Ha. exact H.
  - destruct (Imperative.showIntro s); exact H.
  - destruct (String.eqb _ _); [exact H | apply switchLayer_oneVisible, H].
  - apply switchLayer_oneVisible, H.
  - apply camera_oneVisible, H.
  - apply camera_oneVisible, H.
  - apply camera_oneVisible, H.
Qed.

Lemma run_oneVisible (es : list Imperative.Event) (s : Imperative.State) :
  oneVisible s -> oneVisible (Imperative.run es s).
Proof.
  revert s. induction es as [| e es IH]; intros s H; [exact H |].
  apply (IH _ (step_oneVisible e s H)).
Qed.

(** X7: once App.jsx is mounted, whatever events follow (presses on the
    base buttons, calls of [switchLayer] with any name at all, camera calls,
    slider moves, a second run of the effect), the globe shows exactly one
    of its two providers: either the OpenStreetMap layer is visible and the
    Bing layer hidden, or the other way round.  It never shows both and is
    never left blank. *)
Theorem imperative_globe_shows_exactly_one_provider (es : list Imperative.Event) :
  (Imperative.shown (Imperative.run es Imperative.mounted) = [OpenStreetMap] /\
   Imperative.osmVisible (Imperative.run es Imperative.mounted) = Some true /\
   Imperative.satVisible (Imperative.run es Imperative.mounted) = Some false) \/
  (Imperative.shown (Imperative.run es Imperative.mounted) = [Bing] /\
   Imperative.osmVisible (Imperative.run es Imperative.mounted) = Some false /\
   Imperative.satVisible (Imperative.run es Imperative.mounted) = Some true).
Proof. apply oneVisible_shown, run_oneVisible, mounted_oneVisible. Qed.

Lemma setVisibility_twice (v w : bool) (o : option Layer) :
  setVisibility v <$> (setVisibility w <$> o) = setVisibility v <$> o.
Proof. destruct o as [[p x] |]; reflexivity. Qed.

Lemma alter_visibility_last (v v' w w' : bool) (a b : loc) (h : gmap loc Layer) :
  alter (setVisibility v) a (alter (setVisibility w) b
    (alter (setVisibility v') a (alter (setVisibility w') b h)))
  = alter (setVisibility v) a (alter (setVisibility w) b h).
Proof.
  apply map_eq. intros i. rewrite !lookup_alter.
  repeat case_decide; simplify_eq; rewrite ?setVisibility_twice; reflexivity.
Qed.

(** X8: two calls of [switchLayer] in a row amount to the second one alone
    when the second names "OSM" or "SAT", whatever the first was called
    with and whatever the state; and calling it twice with the same
    argument, any string, is the same as calling it once. *)
Theorem switchLayer_last_call_wins (a b : string) (s : Imperative.State) :
  (b = "OSM" \/ b = "SAT" ->
   Imperative.switchLayer b (Imperative.switchLayer a s) = Imperative.switchLayer b s) /\
  Imperative.switchLayer a (Imperative.switchLayer a s) = Imperative.switchLayer a s.
Proof.
  unfold Imperative.switchLayer.
  destruct (Imperative.globus s) as [g |] eqn:Hg;
    [| rewrite Hg; split; reflexivity].
  destruct (Imperative.osmRef s) as [osm |] eqn:Ho;
    [| rewrite Hg, Ho; split; reflexivity].
  destruct (Imperative.satRef s) as [sat |] eqn:Hs;
    [| rewrite Hg, Ho, Hs; split; reflexivity].
  cbn. rewrite Hg, Ho, Hs. split.
  - intros [-> | ->]; cbn;
      destruct (String.eqb a "OSM"); [| destruct (String.eqb a "SAT") | |
                                        destruct (String.eqb a "SAT")];
      unfold Imperative.setBase, Imperative.setStore; cbn; f_equal;
      try apply alter_visibility_last; reflexivity.
  - destruct (String.eqb a "OSM"); [| destruct (String.eqb a "SAT")];
      unfold Imperative.setBase, Imperative.setStore; cbn; f_equal;
      try apply alter_visibility_last; reflexivity.
Qed.

Lemma switchLayer_last_call_wins_witness :
  Imperative.switchLayer "OSM" (Imperative.switchLayer "SAT" Imperative.mounted)
    = Imperative.switchLayer "OSM" Imperative.mounted /\
  Imperative.switchLayer "SAT" (Imperative.switchLayer "TERRAIN" Imperative.mounted)
    = Imperative.switchLayer "SAT" Imperative.mounted.
Proof.
  split.
  - apply (proj1 (switchLayer_last_call_wins "SAT" "OSM" Imperative.mounted)).
    left. reflexivity.
  - apply (proj1 (switchLayer_last_call_wins "TERRAIN" "SAT" Imperative.mounted)).
    right. reflexivity.
Defined.

End LayerInvariants.

(** ** Who makes layers *)

Section Allocation.
Import JS OG.

Lemma provider_alter (v : bool) (k l : loc) (h : gmap loc Layer) :
  provider <$> (alter (setVisibility v) k h !! l) = provider <$> (h !! l).
Proof.
  rewrite lookup_alter. case_decide; [| reflexivity].
  subst k. destruct (h !! l) as [[p x] |]; reflexivity.
Qed.

Lemma switchLayer_keeps_objects (name : string) (s : Imperative.State) :
  Imperative.osmRef (Imperative.switchLayer name s) = Imperative.osmRef s /\
  Imperative.satRef (Imperative.switchLayer name s) = Imperative.satRef s /\
  Imperative.globus (Imperative.switchLayer name s) = Imperative.globus s /\
  (forall l, provider <$> (Imperative.store (Imperative.switchLayer name s) !! l)
             = provider <$> (Imperative.store s !! l)).
Proof.
  unfold Imperative.switchLayer.
  destruct (Imperative.globus s) eqn:Hg, (Imperative.osmRef s) eqn:Ho,
    (Imperative.satRef s) eqn:Hs;
    cbn; rewrite ?Hg, ?Ho, ?Hs; repeat split; try reflexivity.
  intros k.
  destruct (String.eqb name "OSM"); [| destruct (String.eqb name "SAT")];
    rewrite ?provider_alter; reflexivity.
Qed.

Lemma camera_keeps_objects (r : Request) (s : Imperative.State) :
  Imperative.osmRef (Imperative.camera r s) = Imperative.osmRef s /\
  Imperative.satRef (Imperative.camera r s) = Imperative.satRef s /\
  layers <$> Imperative.globus (Imperative.camera r s)
    = layers <$> Imperative.globus s /\
  Imperative.store (Imperative.camera r s) = Imperative.store s.
Proof.
  destruct (Imperative_camera_cases r s) as [-> | (g & v & _ & Hg & ->)];
    [repeat split |].
  cbn. rewrite Hg. repeat split.
Qed.

Lemma step_keeps_objects (e : Imperative.Event) (s : Imperative.State) :
  Imperative_isEffect e = false ->
  Imperative.osmRef (Imperative.step e s) = Imperative.osmRef s /\
  Imperative.satRef (Imperative.step e s) = Imperative.satRef s /\
  layers <$> Imperative.globus (Imperative.step e s)
    = layers <$> Imperative.globus s /\
  (forall l, provider <$> (Imperative.store (Imperative.step e s) !! l)
             = provider <$> (Imperative.store s !! l)).
Proof.
  intros He. destruct e; try discriminate He; cbn [Imperative.step];
    try (repeat split; reflexivity).
  - destruct (Imperative.showIntro s); repeat split; reflexivity.
  - destruct (String.eqb _ _); [repeat split; reflexivity |].
    destruct (switchLayer_keeps_objects name s) as (H1 & H2 & H3 & H4).
    rewrite H1, H2, H3. repeat split; try reflexivity. exact H4.
  - destruct (switchLayer_keeps_objects name s) as (H1 & H2 & H3 & H4).
    rewrite H1, H2, H3. repeat split; try reflexivity. exact H4.
  - destruct (camera_keeps_objects ask_zoomIn s) as (H1 & H2 & H3 & H4).
    unfold Imperative.zoomIn. rewrite H1, H2, H3, H4. repeat split; reflexivity.
  - destruct (camera_keeps_objects ask_zoomOut s) as (H1 & H2 & H3 & H4).
    unfold Imperative.zoomOut. rewrite H1, H2, H3, H4. repeat split; reflexivity.
  - destruct (camera_keeps_objects (ask_flyLonLat Imperative.US_VIEW) s)
      as (H1 & H2 & H3 & H4).
    unfold Imperative.resetCompass. rewrite H1, H2, H3, H4. repeat split; reflexivity.
Qed.

(** X9: in App.jsx only the effect makes layers.  Over any run of events
    that holds no run of the effect, both refs keep naming the same layers,
    the globe keeps the same layer array, and the store keeps the same
    layer objects with the same providers: the handlers change visibility
    and nothing else about a layer. *)
Theorem imperative_handlers_keep_the_layers (es : list Imperative.Event)
    (s : Imperative.State) :
  forallb (fun e => negb (Imperative_isEffect e)) es = true ->
  Imperative.osmRef (Imperative.run es s) = Imperative.osmRef s /\
  Imperative.satRef (Imperative.run es s) = Imperative.satRef s /\
  layers <$> Imperative.globus (Imperative.run es s) = layers <$> Imperative.globus s /\
  (forall l, provider <$> (Imperative.store (Imperative.run es s) !! l)
             = provider <$> (Imperative.store s !! l)) /\
  dom (Imperative.store (Imperative.run es s)) = dom (Imperative.store s).
Proof.
  intros Hes.
  assert (H : Imperative.osmRef (Imperative.run es s) = Imperative.osmRef s /\
              Imperative.satRef (Imperative.run es s) = Imperative.satRef s /\
              layers <$> Imperative.globus (Imperative.run es s)
                = layers <$> Imperative.globus s /\
              (forall l, provider <$> (Imperative.store (Imperative.run es s) !! l)
                         = provider <$> (Imperative.store s !! l))).
  { revert s. induction es as [| e es IH]; intros s; [repeat split; reflexivity |].
    cbn [forallb] in Hes. apply andb_prop in Hes as [He Hes].
    apply negb_true_iff in He.
    change (Imperative.run (e :: es) s) with (Imperative.run es (Imperative.step e s)).
    destruct (IH Hes (Imperative.step e s)) as (H1 & H2 & H3 & H4).
    destruct (step_keeps_objects e s He) as (K1 & K2 & K3 & K4).
    rewrite H1, H2, H3, K1, K2, K3. repeat split; try reflexivity.
    intros l. rewrite H4. apply K4. }
  destruct H as (H1 & H2 & H3 & H4). repeat split; try assumption.
  apply set_eq. intros l. rewrite !elem_of_dom.
  specialize (H4 l).
  destruct (Imperative.store (Imperative.run es s) !! l),
    (Imperative.store s !! l); cbn in H4; try discriminate H4;
    split; intros [x Hx]; try discriminate Hx; eauto.
Qed.

Lemma imperative_handlers_keep_the_layers_witness :
  dom (Imperative.store
         (Imperative.run
            [Imperative.ClickBase "SAT"; Imperative.CallZoomIn;
             Imperative.CallSwitchLayer "TERRAIN"; Imperative.ClickBase "OSM"]
            Imperative.mounted))
  = dom (Imperative.store Imperative.mounted).
Proof.
  apply (imperative_handlers_keep_the_layers
           [Imperative.ClickBase "SAT"; Imperative.CallZoomIn;
            Imperative.CallSwitchLayer "TERRAIN"; Imperative.ClickBase "OSM"]
           Imperative.mounted).
  reflexivity.
Defined.

Lemma Prototype_step_currentLayer (e : Prototype.Event) (s : Prototype.State) :
  Prototype.currentLayer (Prototype.step e s) = Prototype.currentLayer s.
Proof.
  destruct e; cbn [Prototype.step];
    unfold Prototype.zoomIn, Prototype.zoomOut, Prototype.resetCompass;
    try apply Prototype_camera_keepsState; try reflexivity.
  - unfold Prototype.effect. destruct (Prototype.globeRef s); reflexivity.
  - destruct (String.eqb _ _); [reflexivity |].
    rewrite Prototype_switchLayer_same. reflexivity.
Qed.

Lemma Prototype_step_shows_effect_layer (e : Prototype.Event) (s : Prototype.State) :
  (exists g l, Prototype.globus s = Some g /\ layers g = [l] /\
     Prototype.store s !! l = Some (new_Layer OpenStreetMap)) ->
  exists g l, Prototype.globus (Prototype.step e s) = Some g /\ layers g = [l] /\
    Prototype.store (Prototype.step e s) !! l = Some (new_Layer OpenStreetMap).
Proof.
  intros (g & l & Hg & Hl & Hs).
  assert (Hcam : forall r,
            exists g l, Prototype.globus (Prototype.camera r s) = Some g /\
              layers g = [l] /\
              Prototype.store (Prototype.camera r s) !! l
                = Some (new_Layer OpenStreetMap)).
  { intros r.
    destruct (Prototype_camera_cases r s) as [-> | (g' & v & _ & Hg' & ->)];
      [exists g, l; auto |].
    assert (g' = g) as -> by congruence.
    exists (callCamera (flyLonLat v) g), l. cbn. auto. }
  destruct e; cbn [Prototype.step];
    unfold Prototype.zoomIn, Prototype.zoomOut, Prototype.resetCompass;
    try apply Hcam.
  - unfold Prototype.effect. destruct (Prototype.globeRef s); [| exists g, l; auto].
    cbn. eexists _, _. split; [reflexivity |]. split; [reflexivity |].
    apply lookup_insert_eq.
  - destruct (String.eqb _ _); [exists g, l; auto |].
    rewrite Prototype_switchLayer_same. exists g, l; auto.
  - exists g, l; auto.
Qed.


Lemma Prototype_effect_atMostOne (s : Prototype.State) :
  atMostOneLayer s -> atMostOneLayer (Prototype.effect s).
Proof.
  intros H. unfold Prototype.effect. destruct (Prototype.globeRef s); [| exact H].
  unfold atMostOneLayer, alloc. cbn. right. eexists. split; [reflexivity |].
  apply lookup_insert_eq.
Qed.

Lemma Prototype_switchLayer_atMostOne (name : string) (s : Prototype.State) :
  atMostOneLayer s -> atMostOneLayer (Prototype.switchLayer name s).
Proof. rewrite Prototype_switchLayer_same. trivial. Qed.

Lemma Prototype_camera_atMostOne (r : Request) (s : Prototype.State) :
  atMostOneLayer s -> atMostOneLayer (Prototype.camera r s).
Proof.
  destruct (Prototype_camera_cases r s) as [-> | (g & v & _ & Hg & ->)];
    [trivial |].
  unfold atMostOneLayer. rewrite Hg. cbn. trivial.
Qed.

Lemma Prototype_run_atMostOne (es : list Prototype.Event) (s : Prototype.State) :
  atMostOneLayer s -> atMostOneLayer (Prototype.run es s).
Proof.
  revert s. induction es as [| e es IH]; intros s H; [exact H |].
  change (Prototype.run (e :: es) s) with (Prototype.run es (Prototype.step e s)).
  apply IH. destruct e; cbn [Prototype.step].
  - apply Prototype_effect_atMostOne, H.
  - destruct (String.eqb _ _); [exact H | apply Prototype_switchLayer_atMostOne, H].
  - apply Prototype_camera_atMostOne, H.
  - apply Prototype_camera_atMostOne, H.
  - apply Prototype_camera_atMostOne, H.
  - exact H.
Qed.


End Allocation.

(** ** Where the camera is sent *)

Section CameraTargets.
Import OG.

Lemma effect_aimedAtUS (s : Imperative.State) :
  aimedAtUS s -> aimedAtUS (Imperative.effect s).
Proof.
  intros H. unfold Imperative.effect.
  destruct (Imperative.globeRef s); [| exact H]. reflexivity.
Qed.

Lemma switchLayer_aimedAtUS (name : string) (s : Imperative.State) :
  aimedAtUS s -> aimedAtUS (Imperative.switchLayer name s).
Proof.
  intros H. unfold aimedAtUS.
  rewrite (proj1 (proj2 (proj2 (switchLayer_keeps_objects name s)))). exact H.
Qed.

Lemma camera_aimedAtUS (r : Request) (s : Imperative.State) :
  (r = ask_zoomIn \/ r = ask_zoomOut \/ r = ask_flyLonLat Imperative.US_VIEW) ->
  aimedAtUS s -> aimedAtUS (Imperative.camera r s).
Proof.
  intros Hc H.
  destruct (Imperative_camera_cases r s) as [-> | (g & v & -> & Hg & ->)];
    [exact H |].
  destruct Hc as [Hc | [Hc | Hc]]; try discriminate Hc.
  injection Hc as ->. unfold aimedAtUS. cbn. apply lastView_snoc.
Qed.

Lemma step_aimedAtUS (e : Imperative.Event) (s : Imperative.State) :
  aimedAtUS s -> aimedAtUS (Imperative.step e s).
Proof.
  intros H. destruct e; cbn [Imperative.step]; try exact H.
  - apply effect_aimedAtUS, H.
  - destruct (Imperative.showIntro s); exact H.
  - destruct (String.eqb _ _); [exact H | apply switchLayer_aimedAtUS, H].
  - apply switchLayer_aimedAtUS, H.
  - apply camera_aimedAtUS; [left; reflexivity | exact H].
  - apply camera_aimedAtUS; [right; left; reflexivity | exact H].
  - apply camera_aimedAtUS; [right; right; reflexivity | exact H].
Qed.

Lemma run_aimedAtUS (es : list Imperative.Event) (s : Imperative.State) :
  aimedAtUS s -> aimedAtUS (Imperative.run es s).
Proof.
  revert s. induction es as [| e es IH]; intros s H; [exact H |].
  apply (IH _ (step_aimedAtUS e s H)).
Qed.

(** X12: the camera of App.jsx is only ever sent to [US_VIEW].  From the
    first render on, whatever events happen, the camera has either not been
    sent anywhere yet (there is no globe) or was last sent to [US_VIEW];
    once the component is mounted it is [US_VIEW] after every run of
    events: zooming does not change where the camera was sent, and
    [resetCompass] sends it back to the view the effect started from. *)
Theorem imperative_camera_target_is_US_VIEW (es : list Imperative.Event) :
  (Imperative.cameraTarget (Imperative.run es Imperative.initial) = None \/
   Imperative.cameraTarget (Imperative.run es Imperative.initial)
     = Some Imperative.US_VIEW) /\
  Imperative.cameraTarget (Imperative.run es Imperative.mounted)
    = Some Imperative.US_VIEW /\
  Imperative.cameraTarget (Imperative.resetCompass (Imperative.run es Imperative.mounted))
    = Imperative.cameraTarget Imperative.mounted.
Proof.
  assert (Hm : aimedAtUS Imperative.mounted) by reflexivity.
  assert (Hrun : Imperative.cameraTarget (Imperative.run es Imperative.mounted)
                 = Some Imperative.US_VIEW).
  { pose proof (run_aimedAtUS es _ Hm) as H.
    destruct (run_oneVisible es _ mounted_oneVisible) as (g & ? & ? & ? & ? & Hg & _).
    unfold aimedAtUS in H. unfold Imperative.cameraTarget. rewrite Hg in *. exact H. }
  split; [| split; [exact Hrun |]].
  - pose proof (run_aimedAtUS es Imperative.initial I) as H.
    unfold aimedAtUS in H. unfold Imperative.cameraTarget.
    destruct (Imperative.globus (Imperative.run es Imperative.initial));
      [right; exact H | left; reflexivity].
  - destruct (run_oneVisible es _ mounted_oneVisible) as (g & ? & ? & ? & ? & Hg & _).
    unfold Imperative.resetCompass, Imperative.camera, Imperative.cameraCall,
      Imperative.cameraTarget.
    rewrite Hg. cbn. rewrite lastView_snoc. reflexivity.
Qed.

(** X13: in part_004 the compass button does not bring the camera back to
    where the effect sent it.  After any run of events on the mounted
    component, a press on the compass leaves the camera aimed at longitude
    0, latitude 0, while the effect starts it above the U.S. (longitude
    -98.583); zooming changes neither. *)
Theorem prototype_compass_goes_to_origin (es : list Prototype.Event) :
  Prototype.cameraTarget Prototype.mounted = Some Prototype.START /\
  Prototype.cameraTarget
    (Prototype.run (es ++ [Prototype.ClickResetCompass]) Prototype.mounted)
    = Some Prototype.ORIGIN /\
  Prototype.cameraTarget (Prototype.zoomIn (Prototype.run es Prototype.mounted))
    = Prototype.cameraTarget (Prototype.run es Prototype.mounted) /\
  Prototype.cameraTarget (Prototype.zoomOut (Prototype.run es Prototype.mounted))
    = Prototype.cameraTarget (Prototype.run es Prototype.mounted) /\
  ~ (lon Prototype.ORIGIN == lon Prototype.START)%Q /\
  ~ (lat Prototype.ORIGIN == lat Prototype.START)%Q.
Proof.
  assert (Hg : is_Some (Prototype.globus (Prototype.run es Prototype.mounted))).
  { apply Prototype_run_globus. eexists. reflexivity. }
  destruct Hg as [g Hg].
  split; [reflexivity |]. split; [| split; [| split; [| split]]].
  - unfold Prototype.run. rewrite fold_left_app. cbn [fold_left Prototype.step].
    fold (Prototype.run es Prototype.mounted).
    unfold Prototype.resetCompass, Prototype.camera, Prototype.cameraCall,
      Prototype.cameraTarget.
    rewrite Hg. cbn. rewrite lastView_snoc. reflexivity.
  - unfold Prototype.zoomIn, Prototype.camera, Prototype.cameraCall.
    rewrite Hg. reflexivity.
  - unfold Prototype.zoomOut, Prototype.camera, Prototype.cameraCall.
    rewrite Hg. reflexivity.
  - intros H. vm_compute in H. discriminate H.
  - intros H. vm_compute in H. discriminate H.
Qed.

End CameraTargets.

(** ** The base buttons *)

Section BaseButtons.
Import OG.

Lemma step_before_effect (e : Imperative.Event) (s : Imperative.State) :
  Imperative.globus s = None -> Imperative_isEffect e = false ->
  Imperative.globus (Imperative.step e s) = None /\
  Imperative.base (Imperative.step e s) = Imperative.base s /\
  Imperative.store (Imperative.step e s) = Imperative.store s /\
  Imperative.osmRef (Imperative.step e s) = Imperative.osmRef s /\
  Imperative.satRef (Imperative.step e s) = Imperative.satRef s.
Proof.
  intros Hg He. destruct e; try discriminate He; cbn [Imperative.step];
    unfold Imperative.zoomIn, Imperative.zoomOut, Imperative.resetCompass,
      Imperative.camera, Imperative.cameraCall;
    rewrite ?(switchLayer_not_ready _ s (or_introl Hg)), ?Hg; cbn [fst];
    try (repeat split; first [exact Hg | reflexivity]).
  - destruct (Imperative.showIntro s); repeat split; first [exact Hg | reflexivity].
  - destruct (String.eqb _ _); repeat split; first [exact Hg | reflexivity].
Qed.

(** X14: in App.jsx a press on a base button, or any call of a camera
    handler or of [switchLayer], that comes before the effect has made the
    globe is lost: over any run of events without the effect, starting
    with no globe, there is still no globe, [base] is what it was, no layer
    exists and nothing is shown.  part_005 is different: there a press on
    a base button sets [base] to the button's name at once, globe or not. *)
Theorem presses_before_the_effect_are_lost (es : list Imperative.Event)
    (s : Imperative.State) :
  Imperative.globus s = None ->
  forallb (fun e => negb (Imperative_isEffect e)) es = true ->
  (Imperative.globus (Imperative.run es s) = None /\
   Imperative.base (Imperative.run es s) = Imperative.base s /\
   Imperative.store (Imperative.run es s) = Imperative.store s /\
   Imperative.shown (Imperative.run es s) = [] /\
   Imperative.cameraTarget (Imperative.run es s) = None) /\
  (forall sd name,
     Declarative.base (Declarative.step (Declarative.ClickBase name) sd) = name).
Proof.
  intros Hg Hes. split.
  - assert (H : Imperative.globus (Imperative.run es s) = None /\
                Imperative.base (Imperative.run es s) = Imperative.base s /\
                Imperative.store (Imperative.run es s) = Imperative.store s).
    { revert s Hg. induction es as [| e es IH]; intros s Hg;
        [repeat split; first [exact Hg | reflexivity] |].
      cbn [forallb] in Hes. apply andb_prop in Hes as [He Hes].
      apply negb_true_iff in He.
      destruct (step_before_effect e s Hg He) as (K1 & K2 & K3 & _).
      change (Imperative.run (e :: es) s) with (Imperative.run es (Imperative.step e s)).
      destruct (IH Hes _ K1) as (H1 & H2 & H3).
      rewrite H1, H2, H3, K2, K3. repeat split; reflexivity. }
    destruct H as (H1 & H2 & H3).
    unfold Imperative.shown, Imperative.cameraTarget. rewrite H1, H2, H3.
    repeat split; reflexivity.
  - intros sd name. cbn [Declarative.step].
    destruct (String.eqb (Declarative.base sd) name) eqn:E; [| reflexivity].
    apply String.eqb_eq, E.
Qed.

Lemma presses_before_the_effect_are_lost_witness :
  Imperative.base
    (Imperative.run
       [Imperative.ClickBase "SAT"; Imperative.ChangeSlider 3;
        Imperative.CallResetCompass]
       (Imperative.attach Imperative.initial)) = "OSM" /\
  Declarative.base
    (Declarative.step (Declarative.ClickBase "SAT") Declarative.initial) = "SAT".
Proof.
  destruct (presses_before_the_effect_are_lost
              [Imperative.ClickBase "SAT"; Imperative.ChangeSlider 3;
               Imperative.CallResetCompass]
              (Imperative.attach Imperative.initial) eq_refl eq_refl)
    as ((_ & Hb & _) & Hd).
  split; [exact Hb | apply Hd].
Defined.

Lemma step_base_pressed (o : UserOp) si sd :
  agree si sd ->
  Imperative.base (Imperative.step (inImperative o) si) =
    match pressed o with
    | Some b => buttonName b
    | None => Imperative.base si
    end.
Proof.
  intros (_ & _ & _ & Hwf & _).
  destruct o as [v | b | | |]; cbn [inImperative Imperative.step pressed];
    try reflexivity.
  - destruct (String.eqb (Imperative.base si) (buttonName b)) eqn:E.
    + apply String.eqb_eq, E.
    + apply (Imperative_switchLayer_visibility si (buttonName b)
               (wellFormed_initialized si Hwf) (buttonName_cases b)).
  - apply Imperative_camera_keepsState.
  - apply Imperative_camera_keepsState.
  - apply Imperative_camera_keepsState.
Qed.

Lemma run_base_pressed (ops : list UserOp) (b0 : BaseButton) si sd :
  agree si sd -> Imperative.base si = buttonName b0 ->
  Imperative.base (Imperative.run (map inImperative ops) si) =
    buttonName (default b0 (last (omap pressed ops))).
Proof.
  revert b0 si sd. induction ops as [| o ops IH]; intros b0 si sd Ha Hb;
    [exact Hb |].
  cbn [map]. change (Imperative.run (inImperative o :: map inImperative ops) si)
    with (Imperative.run (map inImperative ops) (Imperative.step (inImperative o) si)).
  pose proof (agree_step o si sd Ha) as Ha'.
  pose proof (step_base_pressed o si sd Ha) as Hstep.
  rewrite (IH (default b0 (pressed o)) _ _ Ha').
  - cbn [omap list_omap]. destruct (pressed o) as [b |]; cbn [default]; [| reflexivity].
    rewrite last_cons. destruct (last (omap pressed ops)); reflexivity.
  - rewrite Hstep. destruct (pressed o); [reflexivity | exact Hb].
Qed.

(** X15: on the mounted App.jsx and part_005, after any sequence of user
    operations, [base] names the base button pressed last ("OSM" when none
    was).  In App.jsx the globe shows that button's provider alone; in
    part_005 the layers the component hands to the globe wrapper are the
    one layer of that button's provider.  The base switch renders that
    button disabled, with class "btn btn-disabled", and the other one
    enabled, with class "btn ": exactly one of the two buttons can be
    pressed, the one that changes [base]. *)
Theorem base_switch_follows_the_last_press (ops : list UserOp) :
  Imperative.base (runImperative ops) =
    buttonName (default OSM (last (omap pressed ops))) /\
  Declarative.base (runDeclarative ops) =
    buttonName (default OSM (last (omap pressed ops))) /\
  Imperative.shown (runImperative ops) =
    [match default OSM (last (omap pressed ops)) with
     | OSM => OpenStreetMap
     | SAT => Bing
     end] /\
  provider <$> Declarative.layersProp (runDeclarative ops) =
    [match default OSM (last (omap pressed ops)) with
     | OSM => OpenStreetMap
     | SAT => XYZ "ESRI World Imagery"
     end] /\
  BaseSwitch.render (Imperative.base (runImperative ops)) =
    match default OSM (last (omap pressed ops)) with
    | OSM => [ {| BaseSwitch.label := "OSM"; BaseSwitch.disabled := true;
                  BaseSwitch.className := "btn btn-disabled" |};
               {| BaseSwitch.label := "SAT"; BaseSwitch.disabled := false;
                  BaseSwitch.className := "btn " |} ]
    | SAT => [ {| BaseSwitch.label := "OSM"; BaseSwitch.disabled := false;
                  BaseSwitch.className := "btn " |};
               {| BaseSwitch.label := "SAT"; BaseSwitch.disabled := true;
                  BaseSwitch.className := "btn btn-disabled" |} ]
    end /\
  BaseSwitch.render (Declarative.base (runDeclarative ops)) =
    BaseSwitch.render (Imperative.base (runImperative ops)).
Proof.
  pose proof (run_base_pressed ops OSM _ _ agree_mounted eq_refl) as Hbase.
  fold (runImperative ops) in Hbase.
  destruct (agree_run ops _ _ agree_mounted) as (_ & Hb & _ & _ & Hsh).
  fold (runImperative ops) in *. fold (runDeclarative ops) in *.
  pose proof (Declarative_layersProp_by_base (runDeclarative ops)) as Hd.
  rewrite <- Hb in *. rewrite Hsh, Hd, Hbase.
  destruct (default OSM (last (omap pressed ops))); repeat split; reflexivity.
Qed.

End BaseButtons.

(** ** The resize listeners *)

Section ResizeListeners.
Import Window.

Lemma newFunction_fresh (p : Page) : newFunction p ∉ (fst <$> listeners p).
Proof. apply infinite_is_fresh. Qed.

Lemma addEventListener_fresh (f : nat) (k : Kind) (p : Page) :
  f ∉ (fst <$> listeners p) ->
  addEventListener f k p = withListeners (listeners p ++ [(f, k)]) p.
Proof.
  intros H. unfold addEventListener. rewrite bool_decide_eq_false_2 by exact H.
  reflexivity.
Qed.

Lemma filter_keeps_others (f : nat) (ls : list (nat * Kind)) :
  f ∉ (fst <$> ls) -> filter (fun l => fst l ≠ f) ls = ls.
Proof.
  induction ls as [| l ls IH]; intros H; [reflexivity |].
  rewrite fmap_cons in H. apply not_elem_of_cons in H as [H1 H2].
  rewrite filter_cons_True by congruence. f_equal. apply IH, H2.
Qed.

Lemma effect_listeners (p : Page) :
  (handleResize (snd (effect p)) ∉ (fst <$> listeners p)) /\
  (onResizeVH (snd (effect p)) ∉ (fst <$> listeners p)) /\
  handleResize (snd (effect p)) <> onResizeVH (snd (effect p)) /\
  listeners (fst (effect p)) =
    listeners p ++ [(handleResize (snd (effect p)), HandleResize);
                    (onResizeVH (snd (effect p)), OnResizeVH)].
Proof.
  unfold effect. cbn [fst snd handleResize onResizeVH].
  pose proof (newFunction_fresh p) as H1.
  rewrite (addEventListener_fresh _ HandleResize p H1).
  set (p1 := withListeners (listeners p ++ [(newFunction p, HandleResize)]) p).
  pose proof (newFunction_fresh p1) as H2.
  assert (H2' : newFunction p1 ∉ (fst <$> listeners (call OnResizeVH p1)))
    by exact H2.
  rewrite (addEventListener_fresh _ OnResizeVH _ H2').
  cbn [listeners withListeners call] in *. unfold p1 in H2. cbn [listeners withListeners] in H2.
  rewrite fmap_app in H2. apply not_elem_of_app in H2 as [H2a H2b].
  cbn in H2b. apply not_elem_of_cons in H2b as [H2b _].
  repeat split; try assumption.
  - intros E. apply H2b. unfold p1 in E. symmetry. exact E.
  - unfold p1. cbn [listeners withListeners]. rewrite <- app_assoc. reflexivity.
Qed.

Lemma fold_call_innerHeight (ls : list (nat * Kind)) (q : Page) :
  innerHeight (fold_left (fun q l => call (snd l) q) ls q) = innerHeight q.
Proof.
  revert q. induction ls as [| [f k] ls IH]; intros q; [reflexivity |].
  cbn [fold_left]. rewrite IH. destruct k; reflexivity.
Qed.

Lemma fold_call_rendererResizes (ls : list (nat * Kind)) (q : Page) :
  rendererResizes (fold_left (fun q l => call (snd l) q) ls q)
  = (rendererResizes q + resizeHandlers ls)%nat.
Proof.
  unfold resizeHandlers. revert q.
  induction ls as [| [f k] ls IH]; intros q; [cbn; lia |].
  cbn [fold_left]. rewrite IH. destruct k; cbn [snd call rendererResizes].
  - rewrite filter_cons_True by reflexivity. cbn [length]. lia.
  - rewrite filter_cons_False by discriminate. lia.
Qed.

(** X16: the effect of App.jsx registers two new resize listeners behind
    the ones the window already has and sets [--vh] to the window's inner
    height at once.  While they are registered, a resize of the window sets
    [--vh] to the new height and makes one call of [renderer.resize()] more
    than the window's other listeners make.  The cleanup removes exactly
    those two listeners, also when others were registered in the meantime,
    so a mount followed by an unmount leaves the window's listeners as they
    were, and it destroys the globe once. *)
Theorem effect_and_cleanup_balance_the_listeners (p : Page) :
  listeners (fst (effect p)) =
    listeners p ++ [(handleResize (snd (effect p)), HandleResize);
                    (onResizeVH (snd (effect p)), OnResizeVH)] /\
  vh (fst (effect p)) = Some (innerHeight p) /\
  (forall h,
     vh (resize h (fst (effect p))) = Some h /\
     rendererResizes (resize h (fst (effect p))) =
       S (rendererResizes p + resizeHandlers (listeners p))) /\
  (forall others,
     handleResize (snd (effect p)) ∉ (fst <$> others) ->
     onResizeVH (snd (effect p)) ∉ (fst <$> others) ->
     listeners (cleanup (snd (effect p))
                  (withListeners (listeners (fst (effect p)) ++ others) (fst (effect p))))
       = listeners p ++ others) /\
  listeners (cleanup (snd (effect p)) (fst (effect p))) = listeners p /\
  destroyed (cleanup (snd (effect p)) (fst (effect p))) = S (destroyed p).
Proof.
  destruct (effect_listeners p) as (H1 & H2 & Hne & Hls).
  assert (Hothers : forall others,
     handleResize (snd (effect p)) ∉ (fst <$> others) ->
     onResizeVH (snd (effect p)) ∉ (fst <$> others) ->
     listeners (cleanup (snd (effect p))
                  (withListeners (listeners (fst (effect p)) ++ others) (fst (effect p))))
       = listeners p ++ others).
  { intros others O1 O2. unfold cleanup, removeEventListener.
    cbn [listeners withListeners]. rewrite Hls.
    rewrite !filter_app.
    rewrite (filter_keeps_others _ (listeners p) H1).
    rewrite (filter_keeps_others _ others O1).
    rewrite (filter_keeps_others _ (listeners p) H2).
    rewrite (filter_keeps_others _ others O2).
    rewrite filter_cons_False by (cbn; intros H; apply H; reflexivity).
    rewrite filter_cons_True by (intros E; apply Hne; symmetry; exact E).
    rewrite filter_nil.
    rewrite filter_cons_False by (cbn; intros H; apply H; reflexivity).
    rewrite filter_nil, app_nil_r. reflexivity. }
  split; [exact Hls |]. split.
  { unfold effect. cbn [fst].
    rewrite (addEventListener_fresh _ HandleResize p (newFunction_fresh p)).
    unfold addEventListener. case_bool_decide; reflexivity. }
  split.
  { intros h. unfold resize. rewrite Hls, !fold_left_app. cbn [fold_left snd].
    split.
    - cbn [call vh]. rewrite fold_call_innerHeight. reflexivity.
    - cbn [call rendererResizes]. rewrite fold_call_rendererResizes.
      cbn [rendererResizes]. f_equal. f_equal.
      unfold effect. cbn [fst].
      rewrite (addEventListener_fresh _ HandleResize p (newFunction_fresh p)).
      unfold addEventListener. case_bool_decide; reflexivity. }
  split; [exact Hothers |]. split.
  - specialize (Hothers [] ltac:(apply not_elem_of_nil) ltac:(apply not_elem_of_nil)).
    rewrite !app_nil_r in Hothers. rewrite <- Hothers. reflexivity.
  - unfold cleanup, removeEventListener. cbn [destroyed withListeners]. f_equal.
    unfold effect. cbn [fst].
    rewrite (addEventListener_fresh _ HandleResize p (newFunction_fresh p)).
    unfold addEventListener. case_bool_decide; reflexivity.
Qed.

Lemma effect_and_cleanup_balance_the_listeners_witness :
  listeners
    (cleanup
       (snd (effect {| listeners := [(0%nat, OnResizeVH)]; innerHeight := 900;
                       vh := None; rendererResizes := 0; destroyed := 0 |}))
       (fst (effect {| listeners := [(0%nat, OnResizeVH)]; innerHeight := 900;
                       vh := None; rendererResizes := 0; destroyed := 0 |})))
  = [(0%nat, OnResizeVH)].
Proof.
  apply (effect_and_cleanup_balance_the_listeners
           {| listeners := [(0%nat, OnResizeVH)]; innerHeight := 900;
              vh := None; rendererResizes := 0; destroyed := 0 |}).
Defined.

End ResizeListeners.

(** ** The layer check boxes *)

Section CheckBoxes.
Import LayerList.

Lemma toggled_zero (b : Box) : coloured b -> toggled 0 b = b.
Proof.
  unfold coloured, toggled. intros H. destruct b as [l c bg]. cbn in *.
  rewrite xorb_false_r. f_equal. symmetry. exact H.
Qed.

Lemma click_coloured (i : nat) (bs : list Box) :
  Forall coloured bs -> Forall coloured (click i bs).
Proof.
  intros H. unfold click. apply Forall_alter; [exact H |].
  intros b _ _. reflexivity.
Qed.

Lemma click_lookup (i j : nat) (bs : list Box) :
  Forall coloured bs ->
  click j bs !! i = toggled (if bool_decide (j = i) then 1 else 0) <$> bs !! i.
Proof.
  intros Hc. unfold click. case_bool_decide as E.
  - subst j. rewrite list_lookup_alter_eq.
    destruct (bs !! i) as [b |]; [| reflexivity]. cbn.
    unfold toggled, onChange. cbn. rewrite xorb_true_r. reflexivity.
  - rewrite list_lookup_alter_ne by exact E.
    destruct (bs !! i) as [b |] eqn:Hb; [| reflexivity]. cbn.
    rewrite toggled_zero; [reflexivity |].
    exact (proj1 (Forall_lookup _ _) Hc i b Hb).
Qed.

Lemma toggled_toggled (n m : nat) (b : Box) :
  toggled n (toggled m b) = toggled (m + n) b.
Proof.
  unfold toggled. cbn. rewrite Nat.odd_add, xorb_assoc. reflexivity.
Qed.

Lemma clicks_lookup (idxs : list nat) (i : nat) (bs : list Box) :
  Forall coloured bs ->
  clicks idxs bs !! i = toggled (clicksOn i idxs) <$> bs !! i.
Proof.
  revert bs. induction idxs as [| j idxs IH]; intros bs Hc.
  - cbn. destruct (bs !! i) as [b |] eqn:Hb; [| reflexivity]. cbn.
    rewrite toggled_zero; [reflexivity |].
    exact (proj1 (Forall_lookup _ _) Hc i b Hb).
  - change (clicks (j :: idxs) bs) with (clicks idxs (click j bs)).
    rewrite (IH _ (click_coloured j bs Hc)), (click_lookup i j bs Hc).
    destruct (bs !! i) as [b |]; [| reflexivity]. cbn [fmap option_fmap option_map].
    rewrite toggled_toggled. f_equal. f_equal.
    unfold clicksOn. rewrite filter_cons.
    case_bool_decide; case_decide; try contradiction; reflexivity.
Qed.

Lemma initial_coloured : Forall coloured initial.
Proof. repeat constructor. Qed.

(** X17: the layer check boxes of part_000.  After any run of clicks, on
    any indices, the list is the one the first render made with every box
    flipped once per click it received: a box is checked exactly when its
    index is even and it was clicked an even number of times, or its index
    is odd and it was clicked an odd number of times; its background is
    "#ff844a" exactly when it is checked and "transparent" otherwise; and
    the four labels stay in place.  A click on an index that has no box
    changes nothing. *)
Theorem check_boxes_follow_their_clicks (idxs : list nat) :
  clicks idxs initial =
    imap (fun i l =>
            {| label := l;
               checked := xorb (even_index i) (Nat.odd (clicksOn i idxs));
               backgroundColor :=
                 colourOf (xorb (even_index i) (Nat.odd (clicksOn i idxs))) |})
         labels /\
  Forall coloured (clicks idxs initial) /\
  label <$> clicks idxs initial = labels /\
  (forall i, (4 <= i)%nat -> click i (clicks idxs initial) = clicks idxs initial).
Proof.
  assert (Hform : clicks idxs initial =
    imap (fun i l =>
            {| label := l;
               checked := xorb (even_index i) (Nat.odd (clicksOn i idxs));
               backgroundColor :=
                 colourOf (xorb (even_index i) (Nat.odd (clicksOn i idxs))) |})
         labels).
  { apply list_eq. intros i.
    rewrite (clicks_lookup idxs i initial initial_coloured).
    unfold initial. rewrite !list_lookup_imap.
    destruct (labels !! i) as [l |]; reflexivity. }
  split; [exact Hform |]. split; [| split].
  - rewrite Hform. repeat constructor.
  - rewrite Hform. reflexivity.
  - intros i Hi. unfold click. apply list_eq. intros k.
    destruct (decide (i = k)) as [<- | Hne].
    + rewrite list_lookup_alter_eq.
      rewrite (lookup_ge_None_2 (clicks idxs initial) i); [reflexivity |].
      rewrite Hform, length_imap. cbn. lia.
    + rewrite list_lookup_alter_ne by exact Hne. reflexivity.
Qed.

Lemma check_boxes_follow_their_clicks_witness :
  checked <$> clicks [1%nat; 1%nat; 0%nat; 7%nat; 3%nat] initial
    = [false; false; true; true].
Proof.
  rewrite (proj1 (check_boxes_follow_their_clicks [1%nat; 1%nat; 0%nat; 7%nat; 3%nat])).
  reflexivity.
Defined.

End CheckBoxes.

(** ** The script that copies the assets *)

Section CopyScript.
Import CopyAssets.

(** X18: the script that copies the globe's assets never ends in a
    rejection, whatever the file system answers.  It first makes the
    target directory; it starts the copy only when that succeeded; and it
    prints exactly one line, last: the success line when both calls
    succeeded, and otherwise an error line with the message of the call
    that failed. *)
Theorem copy_script_reports_and_never_rejects (resolve : string -> string) (fs : FS) :
  snd (run resolve fs) = inl tt /\
  fst (run resolve fs) =
    match mkdir_recursive fs (resolve "public/og-res") with
    | Rejected m =>
        [Mkdir (resolve "public/og-res");
         ConsoleError "[openglobus] Failed to copy assets:" m]
    | Fulfilled =>
        match cp_recursive fs (resolve "node_modules/@openglobus/og/res")
                (resolve "public/og-res") with
        | Rejected m =>
            [Mkdir (resolve "public/og-res");
             Cp (resolve "node_modules/@openglobus/og/res") (resolve "public/og-res");
             ConsoleError "[openglobus] Failed to copy assets:" m]
        | Fulfilled =>
            [Mkdir (resolve "public/og-res");
             Cp (resolve "node_modules/@openglobus/og/res") (resolve "public/og-res");
             ConsoleLog "[openglobus] Copied assets to /public/og-res"]
        end
    end.
Proof.
  unfold run, main, tryCatch, bind, await, console.
  destruct (mkdir_recursive fs (resolve "public/og-res")) as [| m1];
    [| split; reflexivity].
  destruct (cp_recursive fs (resolve "node_modules/@openglobus/og/res")
              (resolve "public/og-res")) as [| m2];
    split; reflexivity.
Qed.

End CopyScript.
